(** * A shallow embedding of the barebones-node-server router

    The file follows [router.js]: the [Router] class with its route table,
    middleware list and param-handler table, the path helpers
    ([normalizePath], [extractParams], [pathToRegex]), route resolution
    ([match]) and the request pipeline ([handle]).

    Conventions of the embedding.
    - A JavaScript string is a [string] of the Standard Library: a sequence of
      code units below 256.  [toUpperCase] therefore only moves [a-z].
    - A [Map] is an association list in insertion order ([Map.prototype.set]
      on an existing key keeps the key's position).
    - The regular expressions built by [new RegExp] are parsed and run by the
      engine of module [RegExp], for the fragment of the ECMAScript syntax
      described there; a pattern outside the fragment yields [Unsupported]
      and nothing is proved about it.
    - Handlers are references of an arbitrary type; what a handler does when
      it is called is given by the section variables of [Dispatch]. *)

From Stdlib Require Import Bool Arith Lia List String Ascii NArith ZArith.
Import ListNotations.
Local Open Scope list_scope.
Local Open Scope string_scope.

Set Implicit Arguments.

(** ** JavaScript strings *)

Module JsString.

Definition code (c : ascii) : N := N_of_ascii c.

Definition in_range (lo hi c : ascii) : bool :=
  (code lo <=? code c)%N && (code c <=? code hi)%N.

Definition is_lower (c : ascii) : bool := in_range "a" "z" c.
Definition is_upper (c : ascii) : bool := in_range "A" "Z" c.
Definition is_digit (c : ascii) : bool := in_range "0" "9" c.

(** The class [\w] of the regular expressions: [[A-Za-z0-9_]]. *)
Definition is_word (c : ascii) : bool :=
  is_lower c || is_upper c || is_digit c || Ascii.eqb c "_".

Definition upper_char (c : ascii) : ascii :=
  if is_lower c then ascii_of_N (code c - 32) else c.

(** [s.toUpperCase()] *)
Fixpoint toUpperCase (s : string) : string :=
  match s with
  | EmptyString => EmptyString
  | String c t => String (upper_char c) (toUpperCase t)
  end.

(** [s.startsWith(pre)] *)
Fixpoint startsWith (pre s : string) : bool :=
  match pre, s with
  | EmptyString, _ => true
  | String _ _, EmptyString => false
  | String a pre', String b s' => Ascii.eqb b a && startsWith pre' s'
  end.

(** [s.endsWith(suf)]: [suf] is [s] or a suffix of its tail. *)
Fixpoint endsWith (suf s : string) : bool :=
  String.eqb s suf ||
  match s with
  | EmptyString => false
  | String _ t => endsWith suf t
  end.

(** [s.slice(0, -1)]: everything but the last code unit. *)
Fixpoint slice_0_m1 (s : string) : string :=
  match s with
  | EmptyString => EmptyString
  | String _ EmptyString => EmptyString
  | String c t => String c (slice_0_m1 t)
  end.

(** [s.slice(1)] *)
Definition slice_1 (s : string) : string :=
  match s with
  | EmptyString => EmptyString
  | String _ t => t
  end.

(** [s.split(sep)] for a separator of one code unit: the pieces between
    the occurrences of [sep]; never the empty list. *)
Fixpoint split (sep : ascii) (s : string) : list string :=
  match s with
  | EmptyString => [EmptyString]
  | String c t =>
      if Ascii.eqb c sep then EmptyString :: split sep t
      else match split sep t with
           | h :: r => String c h :: r
           | [] => [String c EmptyString]
           end
  end.

(** [s.includes(c)] for one code unit. *)
Fixpoint includes (c : ascii) (s : string) : bool :=
  match s with
  | EmptyString => false
  | String d t => Ascii.eqb d c || includes c t
  end.

(** [f] holds of every code unit of [s]. *)
Fixpoint every (f : ascii -> bool) (s : string) : bool :=
  match s with
  | EmptyString => true
  | String c t => f c && every f t
  end.

End JsString.
Import JsString.

(** ** Path helpers of the router *)

(** [normalizePath(path)], router.js lines 90-96, one definition for each of
    its two statements. *)
Definition ensure_leading_slash (path : string) : string :=
  if negb (startsWith "/" path) then "/" ++ path else path.

Definition remove_trailing_slash (path : string) : string :=
  if negb (String.eqb path "/") && endsWith "/" path then slice_0_m1 path
  else path.

Definition normalizePath (path : string) : string :=
  remove_trailing_slash (ensure_leading_slash path).

(** A path in normal form: the root, or no slash at the end. *)
Definition normal (path : string) : Prop :=
  path = "/" \/ endsWith "/" path = false.

(** The paths that one removal of a trailing slash brings to normal form:
    those that do not end in two slashes, and the double slash itself. *)
Definition single_strip_enough (path : string) : Prop :=
  endsWith "//" path = false \/ path = "//".

(** [extractParams(path)], router.js lines 98-109. *)
Definition extractParams (path : string) : list string :=
  let segments := split "/" path in
  fold_left
    (fun params segment =>
       if startsWith ":" segment then (params ++ [slice_1 segment])%list else params)
    segments [].

(** [path.replace(/\/:(\w+)/g, "/([^/]+)")], router.js line 113.  The scan
    is from the left; at a [/:] followed by a word character the whole run of
    word characters is consumed ([\w+] is greedy and nothing follows it) and
    the replacement text is emitted; any other code unit is copied.  [skip]
    is set while the run of word characters of a match is being consumed. *)
Fixpoint replaceParams_from (skip : bool) (s : string) : string :=
  match s with
  | EmptyString => EmptyString
  | String c t =>
      if skip && is_word c then replaceParams_from true t
      else
        match t with
        | String c1 (String c2 t') =>
            if Ascii.eqb c "/" && Ascii.eqb c1 ":" && is_word c2
            then "/([^/]+)" ++ replaceParams_from true t'
            else String c (replaceParams_from false t)
        | _ => String c (replaceParams_from false t)
        end
  end.

Definition replaceParams (s : string) : string := replaceParams_from false s.

(** [s.replace(/\*/g, ".*")], router.js line 114. *)
Fixpoint replaceStars (s : string) : string :=
  match s with
  | EmptyString => EmptyString
  | String c t =>
      if Ascii.eqb c "*" then String "." (String "*" (replaceStars t))
      else String c (replaceStars t)
  end.

(** The source text handed to [new RegExp], router.js lines 112-116. *)
Definition regexSource (path : string) : string :=
  "^" ++ replaceStars (replaceParams path) ++ "$".

(** ** Regular expressions

    The fragment of the ECMAScript pattern syntax (no flags) that the
    engine covers: literal code units, [.], the assertions [^] and [$],
    the quantifiers [*], [+] and [?] with their lazy forms, capturing groups,
    alternation, character classes with ranges and negation, and the escape
    of a code unit that is neither a letter nor a digit.  A brace quantifier,
    a group that starts with [(?], an escape by a letter or a digit and an
    escape inside a class are [Unsupported].  Matching follows the
    backtracking semantics of the language specification: continuation
    passing, greedy choice first, captures of a quantified term reset at each
    iteration, an iteration that consumes nothing rejected once the minimum
    is reached. *)

Module RegExp.

Inductive regex : Type :=
| REmpty
| RChar (c : ascii)
| RAny
| RClass (neg : bool) (ranges : list (ascii * ascii))
| RBol
| REol
| RSeq (a b : regex)
| RAlt (a b : regex)
| RRepeat (a : regex) (min : nat) (max : option nat) (greedy : bool)
| RGroup (i : nat) (a : regex).

(** A compiled pattern: its term and the number of capturing groups. *)
Record t : Type := { ast : regex; ngroups : nat }.

Inductive error : Type := SyntaxError | Unsupported.

(** *** Parsing *)

Inductive token : Type :=
| TStar | TPlus | TQuestion | TLParen | TRParen | TLBracket | TLBrace
| TBar | TDot | TCaret | TDollar | TBackslash
| TChar (c : ascii).

Definition classify (c : ascii) : token :=
  if Ascii.eqb c "*" then TStar
  else if Ascii.eqb c "+" then TPlus
  else if Ascii.eqb c "?" then TQuestion
  else if Ascii.eqb c "(" then TLParen
  else if Ascii.eqb c ")" then TRParen
  else if Ascii.eqb c "[" then TLBracket
  else if Ascii.eqb c "{" then TLBrace
  else if Ascii.eqb c "|" then TBar
  else if Ascii.eqb c "." then TDot
  else if Ascii.eqb c "^" then TCaret
  else if Ascii.eqb c "$" then TDollar
  else if Ascii.eqb c "\" then TBackslash
  else TChar c.

(** What a quantifier met next would apply to: nothing, the last term of
    the sequence, or a term that already carries a greedy quantifier (which
    a [?] turns lazy). *)
Inductive qstate : Type := QNone | QAtom | QQuantified.

(** A disjunction under construction: the group it belongs to ([0] for the
    whole pattern), the alternatives already closed and the terms of the
    current alternative, both latest first. *)
Record frame : Type :=
  { f_index : nat; f_alts : list regex; f_seq : list regex; f_q : qstate }.

(** Inside [[...]]: right after the bracket; in the body, with the ranges
    collected so far and the last code unit read, which a [-] may turn
    into the lower end of a range; after such a [-]. *)
Inductive cstate : Type :=
| CStart
| CBody (neg : bool) (items : list (ascii * ascii)) (pending : option ascii)
| CDash (neg : bool) (items : list (ascii * ascii)) (lo : ascii).

Inductive mode : Type := MNormal | MEscape | MClass (c : cstate).

Record pstate : Type :=
  { p_stack : list frame; p_cur : frame; p_next : nat; p_mode : mode }.

Definition mk_seq (l : list regex) : regex := fold_right RSeq REmpty l.

Fixpoint mk_alt (l : list regex) : regex :=
  match l with
  | [] => REmpty
  | [a] => a
  | a :: l' => RAlt a (mk_alt l')
  end.

Definition close_frame (f : frame) : regex :=
  mk_alt (rev (mk_seq (rev (f_seq f)) :: f_alts f)).

Definition with_cur (st : pstate) (f : frame) (m : mode) : pstate :=
  {| p_stack := p_stack st; p_cur := f; p_next := p_next st; p_mode := m |}.

Definition push_term (q : qstate) (a : regex) (st : pstate) : pstate :=
  let f := p_cur st in
  with_cur st
    {| f_index := f_index f; f_alts := f_alts f; f_seq := a :: f_seq f;
       f_q := q |} MNormal.

Definition single (o : option ascii) : list (ascii * ascii) :=
  match o with
  | Some a => [(a, a)]
  | None => []
  end.

Definition quantify (tk : token) (st : pstate) : pstate + error :=
  let f := p_cur st in
  let bounds :=
    match tk with
    | TStar => (0, None)
    | TPlus => (1, None)
    | _ => (0, Some 1)
    end in
  match f_q f, f_seq f with
  | QAtom, a :: rest =>
      inl (with_cur st
             {| f_index := f_index f; f_alts := f_alts f;
                f_seq := RRepeat a (fst bounds) (snd bounds) true :: rest;
                f_q := QQuantified |} MNormal)
  | QQuantified, RRepeat a mn mx _ :: rest =>
      match tk with
      | TQuestion =>
          inl (with_cur st
                 {| f_index := f_index f; f_alts := f_alts f;
                    f_seq := RRepeat a mn mx false :: rest;
                    f_q := QNone |} MNormal)
      | _ => inr SyntaxError
      end
  | QNone, [] =>
      match tk, f_alts f, f_index f with
      | TQuestion, [], S _ => inr Unsupported
      | _, _, _ => inr SyntaxError
      end
  | _, _ => inr SyntaxError
  end.

Definition class_step (neg : bool) (items : list (ascii * ascii))
    (pending : option ascii) (c : ascii) (st : pstate) : pstate + error :=
  if Ascii.eqb c "]" then
    inl (push_term QAtom (RClass neg (items ++ single pending)) st)
  else if Ascii.eqb c "\" then inr Unsupported
  else if Ascii.eqb c "-" then
    match pending with
    | Some a => inl (with_cur st (p_cur st) (MClass (CDash neg items a)))
    | None => inl (with_cur st (p_cur st) (MClass (CBody neg items (Some c))))
    end
  else
    inl (with_cur st (p_cur st)
           (MClass (CBody neg (items ++ single pending) (Some c)))).

Definition normal_step (c : ascii) (st : pstate) : pstate + error :=
  let f := p_cur st in
  match classify c with
  | TChar d => inl (push_term QAtom (RChar d) st)
  | TDot => inl (push_term QAtom RAny st)
  | TCaret => inl (push_term QNone RBol st)
  | TDollar => inl (push_term QNone REol st)
  | TBackslash => inl (with_cur st f MEscape)
  | TLBracket => inl (with_cur st f (MClass CStart))
  | TLBrace => inr Unsupported
  | TLParen =>
      inl {| p_stack := f :: p_stack st;
             p_cur := {| f_index := p_next st; f_alts := []; f_seq := [];
                         f_q := QNone |};
             p_next := S (p_next st);
             p_mode := MNormal |}
  | TRParen =>
      match p_stack st with
      | [] => inr SyntaxError
      | parent :: rest =>
          inl {| p_stack := rest;
                 p_cur := {| f_index := f_index parent;
                             f_alts := f_alts parent;
                             f_seq := RGroup (f_index f) (close_frame f)
                                        :: f_seq parent;
                             f_q := QAtom |};
                 p_next := p_next st;
                 p_mode := MNormal |}
      end
  | TBar =>
      inl (with_cur st
             {| f_index := f_index f;
                f_alts := mk_seq (rev (f_seq f)) :: f_alts f;
                f_seq := []; f_q := QNone |} MNormal)
  | (TStar | TPlus | TQuestion) as tk => quantify tk st
  end.

Definition parse_step (st : pstate) (c : ascii) : pstate + error :=
  match p_mode st with
  | MNormal => normal_step c st
  | MEscape =>
      if is_lower c || is_upper c || is_digit c then inr Unsupported
      else inl (push_term QAtom (RChar c) st)
  | MClass CStart =>
      if Ascii.eqb c "^"
      then inl (with_cur st (p_cur st) (MClass (CBody true [] None)))
      else class_step false [] None c st
  | MClass (CBody neg items pending) => class_step neg items pending c st
  | MClass (CDash neg items lo) =>
      if Ascii.eqb c "]" then
        inl (push_term QAtom (RClass neg (items ++ [(lo, lo); ("-", "-")]))
               st)%char
      else if Ascii.eqb c "\" then inr Unsupported
      else if (code lo <=? code c)%N then
        inl (with_cur st (p_cur st)
               (MClass (CBody neg (items ++ [(lo, c)]) None)))
      else inr SyntaxError
  end.

Fixpoint parse_from (st : pstate) (s : string) : pstate + error :=
  match s with
  | EmptyString => inl st
  | String c t =>
      match parse_step st c with
      | inl st' => parse_from st' t
      | inr e => inr e
      end
  end.

Definition initial : pstate :=
  {| p_stack := [];
     p_cur := {| f_index := 0; f_alts := []; f_seq := []; f_q := QNone |};
     p_next := 1;
     p_mode := MNormal |}.

Definition finish (st : pstate) : t + error :=
  match p_mode st, p_stack st with
  | MNormal, [] =>
      inl {| ast := close_frame (p_cur st); ngroups := pred (p_next st) |}
  | _, _ => inr SyntaxError
  end.

(** [new RegExp(source)] *)
Definition parse (source : string) : t + error :=
  match parse_from initial source with
  | inl st => finish st
  | inr e => inr e
  end.

(** *** Matching *)

(** The captures of a match in progress: entry [i] is the substring last
    matched by group [i], if any; entry [0] is filled in at the end. *)
Definition captures : Type := list (option string).

Definition cont : Type := nat -> string -> captures -> option (nat * captures).

Fixpoint set_nth (A : Type) (i : nat) (v : A) (l : list A) : list A :=
  match l, i with
  | [], _ => []
  | _ :: l', 0 => v :: l'
  | x :: l', S j => x :: set_nth j v l'
  end.

Fixpoint groups (r : regex) : list nat :=
  match r with
  | RSeq a b | RAlt a b => groups a ++ groups b
  | RRepeat a _ _ _ => groups a
  | RGroup i a => i :: groups a
  | _ => []
  end%list.

Definition clear (gs : list nat) (caps : captures) : captures :=
  fold_left (fun c i => set_nth i None c) gs caps.

Definition in_ranges (rs : list (ascii * ascii)) (c : ascii) : bool :=
  existsb (fun r => in_range (fst r) (snd r) c) rs.

(** Line terminators below 256: line feed and carriage return. *)
Definition is_line_terminator (c : ascii) : bool :=
  (code c =? 10)%N || (code c =? 13)%N.

Definition orelse (A : Type) (x y : option A) : option A :=
  match x with
  | Some _ => x
  | None => y
  end.

(** The matcher of a quantified term whose own matcher is [m] and whose
    groups are [inner].  [fuel] bounds the number of iterations; with
    [min + length s] it is never exhausted before the loop stops by itself,
    since an iteration lowers [min] or consumes input. *)
Fixpoint repeat_loop (m : nat -> string -> captures -> cont -> option (nat * captures))
    (inner : list nat) (greedy : bool) (k : cont)
    (fuel min : nat) (max : option nat)
    (pos : nat) (s : string) (caps : captures) {struct fuel}
    : option (nat * captures) :=
  match max with
  | Some 0 => k pos s caps
  | _ =>
      match fuel with
      | 0 => k pos s caps
      | S fuel' =>
          let d : cont := fun pos' s' caps' =>
            if Nat.eqb min 0 && Nat.eqb pos' pos then None
            else repeat_loop m inner greedy k fuel' (pred min)
                   (option_map pred max) pos' s' caps' in
          let xr := clear inner caps in
          if negb (Nat.eqb min 0) then m pos s xr d
          else if greedy then orelse (m pos s xr d) (k pos s caps)
          else orelse (k pos s caps) (m pos s xr d)
      end
  end.

Fixpoint matcher (r : regex) (pos : nat) (s : string) (caps : captures)
    (k : cont) {struct r} : option (nat * captures) :=
  match r with
  | REmpty => k pos s caps
  | RChar c =>
      match s with
      | String d t => if Ascii.eqb d c then k (S pos) t caps else None
      | EmptyString => None
      end
  | RAny =>
      match s with
      | String d t => if is_line_terminator d then None else k (S pos) t caps
      | EmptyString => None
      end
  | RClass neg rs =>
      match s with
      | String d t => if xorb neg (in_ranges rs d) then k (S pos) t caps else None
      | EmptyString => None
      end
  | RBol => if Nat.eqb pos 0 then k pos s caps else None
  | REol =>
      match s with
      | EmptyString => k pos s caps
      | String _ _ => None
      end
  | RSeq a b =>
      matcher a pos s caps (fun pos' s' caps' => matcher b pos' s' caps' k)
  | RAlt a b => orelse (matcher a pos s caps k) (matcher b pos s caps k)
  | RRepeat a min max greedy =>
      repeat_loop (matcher a) (groups a) greedy k (min + String.length s)
        min max pos s caps
  | RGroup i a =>
      matcher a pos s caps
        (fun pos' s' caps' =>
           k pos' s' (set_nth i (Some (substring 0 (pos' - pos) s)) caps'))
  end.

(** The search of [RegExp.prototype.exec] without the global or sticky
    flag: the first start position, from the left, at which the pattern
    matches.  The result is the match array: the matched text, then the
    captures of the groups. *)
Fixpoint exec_at (rx : t) (pos : nat) (s : string) : option captures :=
  match matcher (ast rx) pos s (repeat None (S (ngroups rx)))
          (fun pos' _ caps' => Some (pos', caps')) with
  | Some (e, caps) => Some (set_nth 0 (Some (substring 0 (e - pos) s)) caps)
  | None =>
      match s with
      | EmptyString => None
      | String _ t => exec_at rx (S pos) t
      end
  end.

Definition exec (rx : t) (s : string) : option captures := exec_at rx 0 s.

(** [rx.test(s)] *)
Definition test (rx : t) (s : string) : bool :=
  match exec rx s with
  | Some _ => true
  | None => false
  end.

End RegExp.

(** ** JavaScript values and objects *)

Inductive jsval : Type :=
| VUndefined
| VNull
| VBool (b : bool)
| VNumber (z : Z)
| VString (s : string)
| VObject (ref : nat).

(** [ToBoolean(v)] *)
Definition truthy (v : jsval) : bool :=
  match v with
  | VUndefined | VNull => false
  | VBool b => b
  | VNumber z => negb (Z.eqb z 0)
  | VString s => negb (String.eqb s EmptyString)
  | VObject _ => true
  end.

(** [v === false] *)
Definition is_false (v : jsval) : bool :=
  match v with
  | VBool false => true
  | _ => false
  end.

Inductive js_error : Type :=
| Error (message : string)
| RegExpSyntaxError (source : string)
| Thrown (v : jsval).

(** How a call ends: it returns, it throws, or it leaves the part of the
    language that the embedding covers. *)
Inductive outcome (A : Type) : Type :=
| Returned (a : A)
| Threw (e : js_error)
| Unmodelled.
Arguments Threw {A} e.
Arguments Unmodelled {A}.

(** ** Paths without pattern syntax of their own

    The paths whose compiled pattern has exactly the groups that
    [replaceParams] writes: every code unit is a literal of the pattern
    syntax, a [.] or a [*], the path starts with a slash, and every [/:] is
    followed by a word character. *)

Definition simple_char (c : ascii) : bool :=
  match RegExp.classify c with
  | RegExp.TChar _ | RegExp.TStar | RegExp.TDot => true
  | _ => false
  end.

(** Every [/:] of [s] is followed by a word character. *)
Fixpoint colon_ok (s : string) : bool :=
  match s with
  | EmptyString => true
  | String c t =>
      (if Ascii.eqb c "/" && startsWith ":" t
       then match t with
            | String _ (String c2 _) => is_word c2
            | _ => false
            end
       else true)
      && colon_ok t
  end.

Definition simple_path (p : string) : bool :=
  startsWith "/" p && every simple_char p && colon_ok p.

(** The number of occurrences of [/:] in [s]. *)
Fixpoint colon_segments (s : string) : nat :=
  match s with
  | EmptyString => 0
  | String c t =>
      (if Ascii.eqb c "/" && startsWith ":" t then 1 else 0) + colon_segments t
  end.

(** The scan of [replaceParams_from], as a list of what it meets: a code
    unit that it copies, or a parameter that it replaces. *)
Inductive ptoken : Type :=
| PChar (c : ascii)
| PParam.

Fixpoint path_tokens (skip : bool) (s : string) : list ptoken :=
  match s with
  | EmptyString => []
  | String c t =>
      if skip && is_word c then path_tokens true t
      else
        match t with
        | String c1 (String c2 t') =>
            if Ascii.eqb c "/" && Ascii.eqb c1 ":" && is_word c2
            then PParam :: path_tokens true t'
            else PChar c :: path_tokens false t
        | _ => PChar c :: path_tokens false t
        end
  end.

Definition is_pparam (tk : ptoken) : bool :=
  match tk with
  | PParam => true
  | PChar _ => false
  end.

Definition count_params (l : list ptoken) : nat :=
  List.length (filter is_pparam l).

Definition simple_token (tk : ptoken) : Prop :=
  match tk with
  | PChar c => simple_char c = true
  | PParam => True
  end.

(** The pattern text of a token, after [replaceStars]. *)
Definition token_source (tk : ptoken) : string :=
  match tk with
  | PChar c => if Ascii.eqb c "*" then ".*" else String c EmptyString
  | PParam => "/([^/]+)"
  end.

Fixpoint tokens_source (l : list ptoken) : string :=
  match l with
  | [] => EmptyString
  | tk :: l' => token_source tk ++ tokens_source l'
  end.

(** The term of [([^/]+)] as group [i], and the term of [.*]. *)
Definition param_group (i : nat) : RegExp.regex :=
  RegExp.RGroup i
    (RegExp.RSeq
       (RegExp.RRepeat (RegExp.RClass true [("/", "/")%char]) 1 None true)
       RegExp.REmpty).

Definition any_star : RegExp.regex :=
  RegExp.RRepeat RegExp.RAny 0 None true.

Definition char_term (c : ascii) : RegExp.regex :=
  if Ascii.eqb c "*" then any_star
  else if Ascii.eqb c "." then RegExp.RAny
  else RegExp.RChar c.

(** The terms that the parser builds for a list of tokens, the first
    parameter being group [next]. *)
Fixpoint tokens_terms (next : nat) (l : list ptoken) : list RegExp.regex :=
  match l with
  | [] => []
  | PChar c :: l' => char_term c :: tokens_terms next l'
  | PParam :: l' =>
      RegExp.RChar "/" :: param_group next :: tokens_terms (S next) l'
  end.

(** How the parser state [st'] extends [st] by the terms [ts], [n] of which
    are groups. *)
Definition extends (st st' : RegExp.pstate) (ts : list RegExp.regex)
    (n : nat) : Prop :=
  RegExp.p_mode st' = RegExp.MNormal /\
  RegExp.p_stack st' = RegExp.p_stack st /\
  RegExp.f_index (RegExp.p_cur st') = RegExp.f_index (RegExp.p_cur st) /\
  RegExp.f_alts (RegExp.p_cur st') = RegExp.f_alts (RegExp.p_cur st) /\
  RegExp.f_seq (RegExp.p_cur st')
  = (rev ts ++ RegExp.f_seq (RegExp.p_cur st))%list /\
  RegExp.p_next st' = n + RegExp.p_next st.

(** A matcher that consumes one code unit, any that [accepts] takes, and
    leaves the captures alone. *)
Definition char_matcher (accepts : ascii -> bool)
    (m : nat -> string -> RegExp.captures -> RegExp.cont
         -> option (nat * RegExp.captures)) : Prop :=
  forall pos s caps k,
    m pos s caps k
    = match s with
      | String d t => if accepts d then k (S pos) t caps else None
      | EmptyString => None
      end.

(** A value that a [:name] segment can take: a string that is not empty and
    holds no slash. *)
Definition segment_text (s : string) : Prop :=
  s <> EmptyString /\ includes "/" s = false.


(** Entry [i] of the captures holds such a text. *)
Definition filled (caps : RegExp.captures) (i : nat) : Prop :=
  exists v, nth_error caps i = Some (Some v) /\ segment_text v.

(** *** Maps in insertion order *)

Module JsMap.
Section Ops.
Variable V : Type.

Fixpoint get (k : string) (m : list (string * V)) : option V :=
  match m with
  | [] => None
  | (k', v) :: m' => if String.eqb k' k then Some v else get k m'
  end.

Definition has (k : string) (m : list (string * V)) : bool :=
  match get k m with
  | Some _ => true
  | None => false
  end.

Fixpoint set (k : string) (v : V) (m : list (string * V))
    : list (string * V) :=
  match m with
  | [] => [(k, v)]
  | (k', v') :: m' =>
      if String.eqb k' k then (k', v) :: m' else (k', v') :: set k v m'
  end.
End Ops.
End JsMap.

(** *** Plain objects

    An object created by [{}]: its own properties, and behind them the
    properties of [Object.prototype], which a lookup reaches when the object
    has no own property of that name.  All of the inherited values are
    functions or objects. *)

Definition obj : Type := list (string * jsval).

Definition object_prototype_keys : list string :=
  ["constructor"; "__defineGetter__"; "__defineSetter__"; "hasOwnProperty";
   "__lookupGetter__"; "__lookupSetter__"; "isPrototypeOf";
   "propertyIsEnumerable"; "toString"; "valueOf"; "__proto__";
   "toLocaleString"].

Definition inherited (k : string) : bool :=
  existsb (String.eqb k) object_prototype_keys.

(** [o[k]] *)
Definition obj_get (o : obj) (k : string) : jsval :=
  match JsMap.get k o with
  | Some v => v
  | None => if inherited k then VObject 0 else VUndefined
  end.

(** The list of an object holds its own properties in the order of its own
    keys: first the names that are array indices, in ascending order, then
    the other names in the order of their creation.  An array index is the
    canonical decimal text of an integer below [2^32 - 1]. *)

Fixpoint digits_value (acc : N) (s : string) : option N :=
  match s with
  | EmptyString => Some acc
  | String c t =>
      if is_digit c then digits_value (acc * 10 + (code c - 48)) t else None
  end.

Definition array_index (k : string) : option N :=
  match k with
  | EmptyString => None
  | String c t =>
      if Ascii.eqb c "0" && negb (String.eqb t EmptyString) then None
      else
        match digits_value 0 k with
        | Some n => if (n <? 4294967295)%N then Some n else None
        | None => None
        end
  end.

(** A new property whose name is the array index [n]: after the array
    indices below [n], before everything else. *)
Fixpoint insert_index (n : N) (k : string) (v : jsval) (o : obj) : obj :=
  match o with
  | [] => [(k, v)]
  | (k', v') :: o' =>
      match array_index k' with
      | Some n' =>
          if (n' <? n)%N then (k', v') :: insert_index n k v o'
          else (k, v) :: o
      | None => (k, v) :: o
      end
  end.

(** [o[k] = v].  [__proto__] is an accessor of the prototype: assigning a
    value that is neither an object nor [null] does nothing.  An own
    property keeps its place; a new one goes where its name belongs. *)
Definition obj_set (k : string) (v : jsval) (o : obj) : obj :=
  if String.eqb k "__proto__" then
    match v with
    | VObject _ | VNull => o
    | _ => o
    end
  else if JsMap.has k o then JsMap.set k v o
  else
    match array_index k with
    | Some n => insert_index n k v o
    | None => JsMap.set k v o
    end.

(** *** [JSON.stringify] of an object whose values are strings *)

Module Json.

(** The double quote, code unit 34. *)
Definition dq : string := String (ascii_of_N 34) EmptyString.

Definition hex_digit (n : N) : ascii :=
  if (n <? 10)%N then ascii_of_N (48 + n) else ascii_of_N (87 + n).

Definition needs_escape (c : ascii) : bool :=
  (code c =? 34)%N || Ascii.eqb c "\" || (code c <? 32)%N.

Definition quote_char (c : ascii) : string :=
  if (code c =? 34)%N then "\" ++ dq
  else if Ascii.eqb c "\" then "\\"
  else if (code c =? 8)%N then "\b"
  else if (code c =? 12)%N then "\f"
  else if (code c =? 10)%N then "\n"
  else if (code c =? 13)%N then "\r"
  else if (code c =? 9)%N then "\t"
  else if (code c <? 32)%N then
    "\u00" ++ String (hex_digit (code c / 16))
                (String (hex_digit (code c mod 16)) EmptyString)
  else String c EmptyString.

Fixpoint quote_body (s : string) : string :=
  match s with
  | EmptyString => EmptyString
  | String c t => quote_char c ++ quote_body t
  end.

(** [QuoteJSONString] *)
Definition quote (s : string) : string := dq ++ quote_body s ++ dq.

Definition member (kv : string * string) : string :=
  quote (fst kv) ++ ":" ++ quote (snd kv).

(** The members in the order of the object's own keys, no white space. *)
Definition stringify (fields : list (string * string)) : string :=
  "{" ++ String.concat "," (map member fields) ++ "}".

(** The body of the not-found response as the specification writes it,
    around the text of the message's path. *)
Definition not_found_template (pathText : string) : string :=
  "{" ++ dq ++ "error" ++ dq ++ ":" ++ dq ++ "Not Found" ++ dq ++ ","
  ++ dq ++ "message" ++ dq ++ ":" ++ dq ++ "Route " ++ pathText
  ++ " not found" ++ dq ++ "}".

(** No code unit of [s] is changed by [quote]. *)
Definition plain (s : string) : bool :=
  negb (existsb needs_escape (list_ascii_of_string s)).

End Json.

(** ** The router *)

Section Router.

(** References to handler functions. *)
Variable H : Type.

Record Route : Type :=
  { handler : H; params : list string; regex : RegExp.t }.

Record Middleware : Type := { path : string; mw_handler : H }.

Record Router : Type :=
  { routes : list (string * Route);
    middlewares : list Middleware;
    paramHandlers : list (string * H) }.

(** [new Router()] *)
Definition empty : Router :=
  {| routes := []; middlewares := []; paramHandlers := [] |}.

(** [pathToRegex(path)], router.js lines 111-117. *)
Definition pathToRegex (path : string) : outcome RegExp.t :=
  match RegExp.parse (regexSource path) with
  | inl rx => Returned rx
  | inr RegExp.SyntaxError => Threw (RegExpSyntaxError (regexSource path))
  | inr RegExp.Unsupported => Unmodelled
  end.

Definition route_key (method normalizedPath : string) : string :=
  toUpperCase method ++ ":" ++ normalizedPath.

(** [add(method, path, handler)], router.js lines 10-23.  The router after
    the call comes with how the call ended. *)
Definition add (method path : string) (h : H) (r : Router)
    : Router * outcome unit :=
  let normalizedPath := normalizePath path in
  let key := route_key method normalizedPath in
  if JsMap.has key (routes r) then
    (r, Threw (Error ("Route " ++ method ++ " " ++ path ++ " already exists")))
  else
    let ps := extractParams normalizedPath in
    match pathToRegex normalizedPath with
    | Returned rx =>
        ({| routes :=
              JsMap.set key {| handler := h; params := ps; regex := rx |}
                (routes r);
            middlewares := middlewares r;
            paramHandlers := paramHandlers r |},
         Returned tt)
    | Threw e => (r, Threw e)
    | Unmodelled => (r, Unmodelled)
    end.

Definition get (path : string) (h : H) := add "GET" path h.
Definition post (path : string) (h : H) := add "POST" path h.
Definition put (path : string) (h : H) := add "PUT" path h.
Definition delete (path : string) (h : H) := add "DELETE" path h.

(** [use(path, ...handlers)], router.js lines 41-49: the first argument is
    a function ([inl]) or a path ([inr]). *)
Definition use (first : H + string) (handlers : list H) (r : Router) : Router :=
  {| routes := routes r;
     middlewares :=
       match first with
       | inl h => middlewares r ++ [{| path := "/*"; mw_handler := h |}]
       | inr p =>
           middlewares r
             ++ map (fun h => {| path := p; mw_handler := h |}) handlers
       end%list;
     paramHandlers := paramHandlers r |}.

(** [param(name, handler)], router.js lines 51-53. *)
Definition param (name : string) (h : H) (r : Router) : Router :=
  {| routes := routes r;
     middlewares := middlewares r;
     paramHandlers := JsMap.set name h (paramHandlers r) |}.

(** [match[index + 1]]: outside the array, or a group that took no part in
    the match, is [undefined]. *)
Definition capture (m : RegExp.captures) (i : nat) : jsval :=
  match nth_error m i with
  | Some (Some s) => VString s
  | _ => VUndefined
  end.

(** The [forEach] of router.js lines 76-78. *)
Fixpoint bind_params (ps : list string) (index : nat) (m : RegExp.captures)
    (o : obj) : obj :=
  match ps with
  | [] => o
  | p :: ps' => bind_params ps' (S index) m (obj_set p (capture m (S index)) o)
  end.

(** The first element of [key.split(":")]. *)
Definition key_method (key : string) : string := hd EmptyString (split ":" key).

(** The loop of router.js lines 68-85. *)
Fixpoint scan (methodUpper urlPath : string) (l : list (string * Route))
    : option (H * obj) :=
  match l with
  | [] => None
  | (key, route) :: rest =>
      if negb (String.eqb (key_method key) methodUpper)
      then scan methodUpper urlPath rest
      else
        match RegExp.exec (regex route) urlPath with
        | Some m => Some (handler route, bind_params (params route) 0 m [])
        | None => scan methodUpper urlPath rest
        end
  end.

(** [match(method, urlPath)], router.js lines 55-88. *)
Definition match_ (r : Router) (method urlPath : string) : option (H * obj) :=
  let methodUpper := toUpperCase method in
  let exactKey := methodUpper ++ ":" ++ urlPath in
  match JsMap.get exactKey (routes r) with
  | Some route => Some (handler route, [])
  | None => scan methodUpper urlPath (routes r)
  end.

(** A route as [add] builds it from the normalized path [p]. *)
Definition compiled_from (p : string) (route : Route) : Prop :=
  params route = extractParams p /\ pathToRegex p = Returned (regex route).


(** The route registered for a method and a path: the one that the table
    holds under the key of the method and the normalized path, where
    [add] stores it. *)
Definition registered (r : Router) (method path : string) (route : Route)
    : Prop :=
  JsMap.get (route_key method (normalizePath path)) (routes r) = Some route.

(** A route that the scan passes over: another method, or a pattern that
    does not accept the path. *)
Definition passed_over (methodUpper urlPath : string)
    (kr : string * Route) : Prop :=
  key_method (fst kr) <> methodUpper \/
  RegExp.exec (regex (snd kr)) urlPath = None.

End Router.

Arguments empty {H}.


(** ** The request pipeline *)

(** What [handle] reads of the request: [req.method], and the [pathname]
    that [url.parse(req.url, true)] returns. *)
Record Request : Type := { req_method : string; req_pathname : string }.

Section Dispatch.

Variable H : Type.

(** Everything the handlers can read and write: the request and response
    objects and whatever else they reach. *)
Variable World : Type.

(** [mw.handler(req, res)], awaited: the world after the call and the value
    the call yields. *)
Variable call_middleware : H -> World -> World * outcome jsval.

(** [handler(req, res, value, paramName)], awaited.  [req.params] is the
    very object that [match] built and that the loop of [handle] reads
    again for the next hook, so the call receives the object's contents
    and gives them back as it leaves them. *)
Variable call_param :
  H -> jsval -> string -> obj -> World -> World * obj * outcome unit.

(** [match.handler(req, res)], awaited, with the contents of
    [req.params]. *)
Variable call_handler : H -> obj -> World -> World * outcome unit.

(** [res.writeHead(status, headers)] and [res.end(body)]. *)
Variable res_writeHead : nat -> list (string * string) -> World -> World.
Variable res_end : string -> World -> World.

(** What [handle] itself does, in order: the calls of handlers and the
    writes on the response. *)
Inductive event : Type :=
| EvMiddleware (index : nat) (h : H)
| EvParam (name : string) (h : H) (value : jsval)
| EvHandler (h : H)
| EvWriteHead (status : nat) (headers : list (string * string))
| EvEnd (body : string).

(** How a loop of [handle] is left: by running to its end, by [return],
    by an exception, or outside of what the embedding covers. *)
Inductive flow : Type :=
| Continue
| Return
| Abort (e : js_error)
| Stuck.

(** The loop of router.js lines 125-133; [index] is the position of the
    head of [mws] in [this.middlewares]. *)
Fixpoint run_middlewares (index : nat) (mws : list (Middleware H))
    (pathname : string) (w : World) : World * list event * flow :=
  match mws with
  | [] => (w, [], Continue)
  | mw :: rest =>
      let normalizedPath := normalizePath (path mw) in
      match pathToRegex normalizedPath with
      | Threw e => (w, [], Abort e)
      | Unmodelled => (w, [], Stuck)
      | Returned regex =>
          if RegExp.test regex pathname then
            let ev := EvMiddleware index (mw_handler mw) in
            match call_middleware (mw_handler mw) w with
            | (w', Returned shouldContinue) =>
                if is_false shouldContinue then (w', [ev], Return)
                else
                  let '(w'', tr, f) :=
                    run_middlewares (S index) rest pathname w' in
                  (w'', ev :: tr, f)
            | (w', Threw e) => (w', [ev], Abort e)
            | (w', Unmodelled) => (w', [ev], Stuck)
            end
          else run_middlewares (S index) rest pathname w
      end
  end.

(** The loop of router.js lines 143-147 over the entries of
    [this.paramHandlers]; [ps] is the contents of [match.params]. *)
Fixpoint run_params (hooks : list (string * H)) (ps : obj) (w : World)
    : World * obj * list event * flow :=
  match hooks with
  | [] => (w, ps, [], Continue)
  | (paramName, h) :: rest =>
      if truthy (obj_get ps paramName) then
        let ev := EvParam paramName h (obj_get ps paramName) in
        match call_param h (obj_get ps paramName) paramName ps w with
        | (w', ps', Returned _) =>
            let '(w'', ps'', tr, f) := run_params rest ps' w' in
            (w'', ps'', ev :: tr, f)
        | (w', ps', Threw e) => (w', ps', [ev], Abort e)
        | (w', ps', Unmodelled) => (w', ps', [ev], Stuck)
        end
      else run_params rest ps w
  end.

Definition not_found_headers : list (string * string) :=
  [("Content-Type", "application/json")].

Definition not_found_body (pathname : string) : string :=
  Json.stringify
    [("error", "Not Found");
     ("message", "Route " ++ pathname ++ " not found")].

(** Router.js lines 138-160: what follows the call of [match]. *)
Definition finish_dispatch (r : Router H) (m : option (H * obj))
    (pathname : string) (w : World) : World * list event * outcome unit :=
  match m with
  | Some (h, ps) =>
      match run_params (paramHandlers r) ps w with
      | (w2, ps2, tr2, Continue) =>
          let (w3, o) := call_handler h ps2 w2 in
          (w3, tr2 ++ [EvHandler h], o)%list
      | (w2, _, tr2, Return) => (w2, tr2, Returned tt)
      | (w2, _, tr2, Abort e) => (w2, tr2, Threw e)
      | (w2, _, tr2, Stuck) => (w2, tr2, Unmodelled)
      end
  | None =>
      let body := not_found_body pathname in
      (res_end body (res_writeHead 404 not_found_headers w),
       [EvWriteHead 404 not_found_headers; EvEnd body],
       Returned tt)
  end.

(** What [handle] does once the loop over the middlewares is left. *)
Definition after_middlewares (r : Router H) (req : Request)
    (x : World * list event * flow) : World * list event * outcome unit :=
  match x with
  | (w1, tr1, Continue) =>
      let '(w2, tr2, o) :=
        finish_dispatch r (match_ r (req_method req) (req_pathname req))
          (req_pathname req) w1 in
      (w2, tr1 ++ tr2, o)%list
  | (w1, tr1, Return) => (w1, tr1, Returned tt)
  | (w1, tr1, Abort e) => (w1, tr1, Threw e)
  | (w1, tr1, Stuck) => (w1, tr1, Unmodelled)
  end.

(** [handle(req, res)], router.js lines 119-161. *)
Definition handle (r : Router H) (req : Request) (w : World)
    : World * list event * outcome unit :=
  after_middlewares r req
    (run_middlewares 0 (middlewares r) (req_pathname req) w).

(** The number of calls of the hook of [name] in a trace. *)
Fixpoint param_calls (name : string) (tr : list event) : nat :=
  match tr with
  | [] => 0
  | EvParam n _ _ :: tr' =>
      (if String.eqb n name then 1 else 0) + param_calls name tr'
  | _ :: tr' => param_calls name tr'
  end.

(** The calls of hooks that the loop over [hooks] makes when every hook
    leaves the parameter object [ps] as it finds it: one for each entry
    whose name has a truthy value in [ps]. *)
Definition hook_events (ps : obj) (hooks : list (string * H)) : list event :=
  map (fun nh => EvParam (fst nh) (snd nh) (obj_get ps (fst nh)))
    (filter (fun nh => truthy (obj_get ps (fst nh))) hooks).

Definition is_middleware_event (e : event) : bool :=
  match e with
  | EvMiddleware _ _ => true
  | _ => false
  end.

Definition is_param_event (e : event) : bool :=
  match e with
  | EvParam _ _ _ => true
  | _ => false
  end.

End Dispatch.

Arguments EvMiddleware {H} index h.
Arguments EvParam {H} name h value.
Arguments EvHandler {H} h.
Arguments EvWriteHead {H} status headers.
Arguments EvEnd {H} body.
Arguments hook_events {H} ps hooks.
Arguments param_calls {H} name tr.

(** ** Further notions for the properties of the pipeline *)

(** [l1] is [l2] with some elements left out, the order kept. *)
Inductive subsequence (A : Type) : list A -> list A -> Prop :=
| subsequence_nil : forall l, subsequence [] l
| subsequence_take : forall x l1 l2,
    subsequence l1 l2 -> subsequence (x :: l1) (x :: l2)
| subsequence_skip : forall x l1 l2,
    subsequence l1 l2 -> subsequence l1 (x :: l2).

(** The hooks called in a trace, in order: name and handler. *)
Fixpoint hooks_called (H : Type) (tr : list (event H)) : list (string * H) :=
  match tr with
  | [] => []
  | EvParam name h _ :: tr' => (name, h) :: hooks_called tr'
  | _ :: tr' => hooks_called tr'
  end.

(** The invariant of the route table: the keys are distinct, and every
    route was built by [add] from the normalized path of its key. *)
Definition route_consistent (H : Type) (kr : string * Route H) : Prop :=
  exists method path,
    fst kr = route_key method (normalizePath path) /\
    compiled_from (normalizePath path) (snd kr).

Definition wf_routes (H : Type) (l : list (string * Route H)) : Prop :=
  NoDup (map fst l) /\ Forall (@route_consistent H) l.

(** A code unit that the pattern syntax and the two replacements of
    [pathToRegex] take as itself. *)
Definition literal_char (c : ascii) : bool :=
  simple_char c && negb (Ascii.eqb c "*") && negb (Ascii.eqb c ".")
  && negb (Ascii.eqb c ":").

(** The terms of a literal text: one for each code unit. *)
Fixpoint literal_terms (p : string) : list RegExp.regex :=
  match p with
  | EmptyString => []
  | String c t => RegExp.RChar c :: literal_terms t
  end.

Fixpoint literal_tokens (p : string) : list ptoken :=
  match p with
  | EmptyString => []
  | String c t => PChar c :: literal_tokens t
  end.

(** What [.] accepts. *)
Definition not_line_terminator (c : ascii) : bool :=
  negb (RegExp.is_line_terminator c).

(** [s] without the prefix [p], when it starts with [p]. *)
Fixpoint strip_prefix (p s : string) : option string :=
  match p, s with
  | EmptyString, _ => Some s
  | String _ _, EmptyString => None
  | String a p', String b s' =>
      if Ascii.eqb b a then strip_prefix p' s' else None
  end.

(** ** Route templates

    A route path seen as a list of segments, each after a slash: a literal
    text or a parameter; the request paths that put values in the
    parameters. *)

Inductive segment : Type :=
| SLit (text : string)
| SPar (name : string).

(** A code unit of a literal segment. *)
Definition segment_char (c : ascii) : bool :=
  literal_char c && negb (Ascii.eqb c "/").

Definition nonempty (s : string) : bool :=
  match s with
  | EmptyString => false
  | String _ _ => true
  end.

(** A literal segment holds segment characters only; the name of a
    parameter is a word, as [\w+] takes it. *)
Definition wf_segment (sg : segment) : bool :=
  match sg with
  | SLit t => every segment_char t
  | SPar n => nonempty n && every is_word n
  end.

(** The route path of a template. *)
Fixpoint template_path (segs : list segment) : string :=
  match segs with
  | [] => EmptyString
  | SLit t :: rest => "/" ++ t ++ template_path rest
  | SPar n :: rest => "/:" ++ n ++ template_path rest
  end.

Fixpoint template_names (segs : list segment) : list string :=
  match segs with
  | [] => []
  | SLit _ :: rest => template_names rest
  | SPar n :: rest => n :: template_names rest
  end.

(** The request path of a template whose parameters take [vals], from
    left to right. *)
Fixpoint instantiate (segs : list segment) (vals : list string) : string :=
  match segs with
  | [] => EmptyString
  | SLit t :: rest => "/" ++ t ++ instantiate rest vals
  | SPar _ :: rest =>
      "/" ++ hd EmptyString vals ++ instantiate rest (tl vals)
  end.

(** The text of a segment between two slashes of the route path. *)
Definition segment_source (sg : segment) : string :=
  match sg with
  | SLit t => t
  | SPar n => ":" ++ n
  end.

(** The tokens of a template. *)
Fixpoint template_tokens (segs : list segment) : list ptoken :=
  match segs with
  | [] => []
  | SLit t :: rest =>
      (PChar "/" :: literal_tokens t ++ template_tokens rest)%list
  | SPar _ :: rest => PParam :: template_tokens rest
  end.

(** The captures [caps] once the groups from [next] on have taken
    [vals]. *)
Fixpoint fill (next : nat) (vals : list string) (caps : RegExp.captures)
    : RegExp.captures :=
  match vals with
  | [] => caps
  | v :: vals' => fill (S next) vals' (RegExp.set_nth next (Some v) caps)
  end.

(** What [[^/]] accepts. *)
Definition not_slash (d : ascii) : bool :=
  xorb true (RegExp.in_ranges [("/", "/")%char] d).

(** A text that is empty or starts with a slash. *)
Definition at_boundary (s : string) : Prop :=
  s = EmptyString \/ exists t, s = String "/" t.

(** ** Concrete routers and handlers for the examples *)

(** The router with [GET /*] registered before [GET /users/:id]. *)
Definition wildcard_first : Router nat :=
  Eval vm_compute in fst (add "GET" "/users/:id" 2 (fst (add "GET" "/*" 1 empty))).


Definition demo_middleware (h : nat) (w : list nat) : list nat * outcome jsval :=
  ((w ++ [h])%list, Returned (if Nat.eqb h 0 then VBool false else VUndefined)).

Definition demo_param (h : nat) (value : jsval) (name : string) (ps : obj)
    (w : list nat) : list nat * obj * outcome unit :=
  ((w ++ [h])%list, ps, Returned tt).

Definition demo_handler (h : nat) (ps : obj) (w : list nat)
    : list nat * outcome unit :=
  ((w ++ [h])%list, Returned tt).

Definition demo_writeHead (status : nat) (headers : list (string * string))
    (w : list nat) : list nat := (w ++ [status])%list.

Definition demo_end (body : string) (w : list nat) : list nat := w.

Definition demo_handle :=
  handle demo_middleware demo_param demo_handler demo_writeHead demo_end.

(** Middlewares 1 (every path), 0 (on [/anything], returns [false]) and 2
    (every path); the route [OPTIONS /anything]; a hook for [id]. *)
Definition preflight_router : Router nat :=
  Eval vm_compute in
  param "id" 8
    (fst (add "OPTIONS" "/anything" 7
            (use (inl 2) [] (use (inr "/anything") [0] (use (inl 1) [] empty))))).

(** One middleware, the route [GET /users/:id], hooks for [id] and
    [other]. *)
Definition users_router : Router nat :=
  Eval vm_compute in
  param "other" 9
    (param "id" 8 (fst (add "GET" "/users/:id" 7 (use (inl 1) [] empty)))).

(** The route [GET /users] and a hook for the name [constructor]. *)
Definition plain_router : Router nat :=
  Eval vm_compute in
  param "constructor" 8 (fst (add "GET" "/users" 7 empty)).

(** A path with a double quote in it. *)
Definition quoted_path : string := "/a" ++ Json.dq ++ "b".

(** The route [GET /users] alone. *)
Definition users_only : Router nat :=
  Eval vm_compute in fst (add "GET" "/users" 7 empty).

(** The routes [GET /*], [GET /users] (registered as [users/]) and
    [GET /users/:id], in this order. *)
Definition exact_router : Router nat :=
  Eval vm_compute in
  fst (add "GET" "/users/:id" 3
         (fst (add "GET" "users/" 2 (fst (add "GET" "/*" 1 empty))))).



(** The router with the route [GET /a/:/*]. *)
Definition empty_name_router : Router nat :=
  Eval vm_compute in fst (add "GET" "/a/:/*" 7 empty).

(** Handlers whose reference is 100 or more throw. *)
Definition faulty_middleware (h : nat) (w : list nat)
    : list nat * outcome jsval :=
  if Nat.leb 100 h then ((w ++ [h])%list, Threw (Error "boom"))
  else demo_middleware h w.

Definition faulty_param (h : nat) (value : jsval) (name : string) (ps : obj)
    (w : list nat) : list nat * obj * outcome unit :=
  if Nat.leb 100 h then ((w ++ [h])%list, ps, Threw (Error "boom"))
  else demo_param h value name ps w.

Definition faulty_handle :=
  handle faulty_middleware faulty_param demo_handler demo_writeHead demo_end.

(** Middlewares 1, 100 and 2 on every path, and the route [GET /users]. *)
Definition throwing_router : Router nat :=
  Eval vm_compute in
  fst (add "GET" "/users" 7
         (use (inl 2) [] (use (inl 100) [] (use (inl 1) [] empty)))).

(** One middleware, the route [GET /users/:id], hooks for [other], [id]
    (which throws) and [id2]. *)
Definition hook_throw_router : Router nat :=
  Eval vm_compute in
  param "id2" 10
    (param "id" 100
       (param "other" 9
          (fst (add "GET" "/users/:id" 7 (use (inl 1) [] empty))))).

(** A middleware on every path, then one whose path is not a pattern. *)
Definition bad_pattern_router : Router nat :=
  Eval vm_compute in
  fst (add "GET" "/users" 7 (use (inr "/(") [5] (use (inl 1) [] empty))).

(** The route [GET /*] alone. *)
Definition wildcard_only : Router nat :=
  Eval vm_compute in fst (add "GET" "/*" 1 empty).

Definition nested_template : list segment :=
  [SLit "users"; SPar "id"; SLit "posts"; SPar "post"].

Definition nested_router : Router nat :=
  Eval vm_compute in
    fst (add "get" (template_path nested_template) 7 empty).

(** * Properties *)

(** ** Strings *)

Section StringFacts.

Lemma append_nil_r (s : string) : s ++ EmptyString = s.
Proof. induction s; simpl; congruence. Qed.

Lemma append_assoc (a b c : string) : (a ++ b) ++ c = a ++ (b ++ c).
Proof. induction a; simpl; congruence. Qed.

Lemma length_append (a b : string) :
  String.length (a ++ b) = String.length a + String.length b.
Proof. induction a; simpl; congruence. Qed.

Lemma endsWith_cons (suf : string) (c : ascii) (s : string) :
  endsWith suf (String c s) = String.eqb (String c s) suf || endsWith suf s.
Proof. reflexivity. Qed.

(** The last code unit of a string. *)
Lemma endsWith_slash_cons (c d : ascii) (s : string) :
  endsWith "/" (String c (String d s)) = endsWith "/" (String d s).
Proof.
  rewrite endsWith_cons. simpl String.eqb.
  destruct (Ascii.eqb c "/"); reflexivity.
Qed.

Lemma slice_0_m1_cons (c d : ascii) (s : string) :
  slice_0_m1 (String c (String d s)) = String c (slice_0_m1 (String d s)).
Proof. reflexivity. Qed.

End StringFacts.

Section NormalizeFacts.

Lemma snoc_view (s : string) :
  s = EmptyString \/ exists t c, s = t ++ String c EmptyString.
Proof.
  induction s as [|a s IH]; [now left|right].
  destruct IH as [->|(t & c & ->)].
  - now exists EmptyString, a.
  - now exists (String a t), c.
Qed.

Lemma eqb_snoc_single (a c d : ascii) (t : string) :
  String.eqb (String a (t ++ String c EmptyString)) (String d EmptyString) = false.
Proof. simpl. destruct t; simpl; destruct (Ascii.eqb a d); reflexivity. Qed.

Lemma endsWith_snoc (t : string) (c : ascii) :
  endsWith "/" (t ++ String c EmptyString) = Ascii.eqb c "/".
Proof.
  induction t as [|a t IH].
  - simpl. destruct (Ascii.eqb c "/"); reflexivity.
  - change (String a t ++ String c EmptyString)
      with (String a (t ++ String c EmptyString)).
    rewrite endsWith_cons, eqb_snoc_single, IH. reflexivity.
Qed.

Lemma eqb_snoc_empty (t : string) (c : ascii) :
  String.eqb (t ++ String c EmptyString) EmptyString = false.
Proof. destruct t; reflexivity. Qed.

Lemma eqb_snoc_double (a c : ascii) (t : string) :
  String.eqb (String a (t ++ String c EmptyString)) "//"
  = Ascii.eqb c "/" && String.eqb (String a t) "/".
Proof.
  destruct t as [|b t]; simpl.
  - destruct (Ascii.eqb a "/"), (Ascii.eqb c "/"); reflexivity.
  - rewrite eqb_snoc_empty.
    destruct (Ascii.eqb a "/"), (Ascii.eqb b "/"), (Ascii.eqb c "/");
      reflexivity.
Qed.

Lemma endsWith2_snoc (t : string) (c : ascii) :
  endsWith "//" (t ++ String c EmptyString)
  = Ascii.eqb c "/" && endsWith "/" t.
Proof.
  induction t as [|a t IH].
  - simpl. destruct (Ascii.eqb c "/"); reflexivity.
  - change (String a t ++ String c EmptyString)
      with (String a (t ++ String c EmptyString)).
    rewrite endsWith_cons, IH, (endsWith_cons "/" a t), eqb_snoc_double.
    destruct (Ascii.eqb c "/"); reflexivity.
Qed.

Lemma slice_0_m1_snoc (t : string) (c : ascii) :
  slice_0_m1 (t ++ String c EmptyString) = t.
Proof.
  induction t as [|a t IH]; [reflexivity|].
  change (String a t ++ String c EmptyString)
    with (String a (t ++ String c EmptyString)).
  destruct t as [|b t]; [reflexivity|].
  change (String b t ++ String c EmptyString)
    with (String b (t ++ String c EmptyString)) in *.
  rewrite slice_0_m1_cons, IH. reflexivity.
Qed.

End NormalizeFacts.

Section NormalizeTheory.

Lemma normalizePath_steps (p : string) : normalizePath p = remove_trailing_slash (ensure_leading_slash p).
Proof. reflexivity. Qed.

Lemma lead_shape (p : string) :
  exists t, ensure_leading_slash p = String "/" t /\
            (p = String "/" t \/ (p = t /\ startsWith "/" t = false)).
Proof.
  unfold ensure_leading_slash. destruct p as [|a p]; simpl.
  - exists EmptyString. split; [reflexivity|right; now split].
  - destruct (Ascii.eqb a "/") eqn:Ha; simpl.
    + apply Ascii.eqb_eq in Ha. subst a.
      exists p. split; [reflexivity|now left].
    + exists (String a p). split; [reflexivity|right; split; [reflexivity|]].
      simpl. now rewrite Ha.
Qed.

Lemma remove_trailing_slash_root : remove_trailing_slash "/" = "/".
Proof. reflexivity. Qed.

Lemma remove_trailing_slash_snoc (t : string) (c : ascii) :
  remove_trailing_slash (String "/" (t ++ String c EmptyString))
  = if Ascii.eqb c "/" then String "/" t
    else String "/" (t ++ String c EmptyString).
Proof.
  unfold remove_trailing_slash. rewrite eqb_snoc_single.
  change (String "/" (t ++ String c EmptyString))
    with (String "/" t ++ String c EmptyString).
  rewrite endsWith_snoc, slice_0_m1_snoc. reflexivity.
Qed.

Lemma normal_slash (t : string) :
  normal (String "/" t) <-> endsWith "/" t = false.
Proof.
  unfold normal. destruct (snoc_view t) as [->|(u & d & ->)].
  - split; [reflexivity|now left].
  - change (String "/" (u ++ String d EmptyString))
      with (String "/" u ++ String d EmptyString).
    rewrite !endsWith_snoc. split; [|now right].
    intros [Heq|H]; [|exact H].
    destruct u; discriminate.
Qed.

Lemma remove_trailing_slash_fixed (t : string) :
  remove_trailing_slash (String "/" t) = String "/" t <-> normal (String "/" t).
Proof.
  rewrite normal_slash. destruct (snoc_view t) as [->|(u & d & ->)].
  - split; reflexivity.
  - rewrite remove_trailing_slash_snoc, endsWith_snoc. destruct (Ascii.eqb d "/").
    + split; [|discriminate]. intros Heq. exfalso.
      injection Heq as Heq. apply (f_equal String.length) in Heq.
      rewrite length_append in Heq. simpl in Heq. lia.
    + split; reflexivity.
Qed.

Lemma normal_normalizePath (p : string) :
  normal (normalizePath p) <-> single_strip_enough p.
Proof.
  rewrite normalizePath_steps. unfold single_strip_enough.
  destruct (lead_shape p) as (t & -> & Hp).
  destruct (snoc_view t) as [->|(u & d & ->)].
  - rewrite remove_trailing_slash_root. split; [intros _|intros _; now left].
    left. destruct Hp as [->|[-> _]]; reflexivity.
  - rewrite remove_trailing_slash_snoc. destruct (Ascii.eqb d "/") eqn:Hd.
    + apply Ascii.eqb_eq in Hd. subst d. rewrite normal_slash.
      destruct Hp as [->|[-> Hs]].
      * change (String "/" (u ++ "/")) with (String "/" u ++ "/").
        rewrite endsWith2_snoc. simpl andb.
        destruct u as [|b u].
        -- split; [now right|reflexivity].
        -- change (String b u =? EmptyString) with false. simpl orb.
           split; [now left|].
           intros [H|H]; [exact H|]. destruct u; discriminate.
      * rewrite endsWith2_snoc. simpl andb. split; [now left|].
        intros [H|H]; [exact H|].
        destruct u as [|b u]; [reflexivity|].
        injection H as -> H. discriminate.
    + split; [intros _|intros _].
      * left. destruct Hp as [->|[-> _]].
        -- change (String "/" (u ++ String d EmptyString))
             with (String "/" u ++ String d EmptyString).
           now rewrite endsWith2_snoc, Hd.
        -- now rewrite endsWith2_snoc, Hd.
      * right.
        change (String "/" (u ++ String d EmptyString))
          with (String "/" u ++ String d EmptyString).
        now rewrite endsWith_snoc.
Qed.

Lemma normalizePath_starts (p : string) :
  exists t, normalizePath p = String "/" t.
Proof.
  rewrite normalizePath_steps. destruct (lead_shape p) as (t & -> & _).
  destruct (snoc_view t) as [->|(u & d & ->)].
  - now exists EmptyString.
  - rewrite remove_trailing_slash_snoc. destruct (Ascii.eqb d "/"); eauto.
Qed.

Lemma lead_slash (t : string) : ensure_leading_slash (String "/" t) = String "/" t.
Proof. reflexivity. Qed.

End NormalizeTheory.

(** C2 (as amended): [normalizePath] is total and its result always starts
    with a slash; the result is in normal form (the root, or without a slash
    at the end) exactly for the paths that do not end in two slashes (the
    double slash itself apart), and these are exactly the paths on which
    normalizing twice is the same as normalizing once. *)
Theorem normalizePath_single_strip (p : string) :
  startsWith "/" (normalizePath p) = true /\
  (normal (normalizePath p) <-> single_strip_enough p) /\
  (normalizePath (normalizePath p) = normalizePath p <-> single_strip_enough p).
Proof.
  destruct (normalizePath_starts p) as (t & Ht).
  split; [now rewrite Ht|].
  split; [apply normal_normalizePath|].
  rewrite <- normal_normalizePath, Ht.
  rewrite normalizePath_steps, lead_slash.
  apply remove_trailing_slash_fixed.
Qed.

(** C2 as stated fails on a path with two slashes at the end: one of them
    is left, and a second normalization removes it. *)
Lemma normalizePath_not_idempotent :
  normalizePath "/a//" = "/a/" /\
  ~ normal (normalizePath "/a//") /\
  normalizePath (normalizePath "/a//") <> normalizePath "/a//".
Proof.
  split; [vm_compute; reflexivity|]. split.
  - intros [H|H]; vm_compute in H; discriminate H.
  - vm_compute. discriminate.
Qed.

(** ** Maps in insertion order *)

Section JsMapFacts.

Variable V : Type.
Implicit Types (m : list (string * V)) (k : string) (v : V).

Lemma has_get k m : JsMap.has k m = true <-> exists v, JsMap.get k m = Some v.
Proof.
  unfold JsMap.has. destruct (JsMap.get k m); split; eauto;
    try discriminate. intros (v & Hv). discriminate.
Qed.

Lemma has_false_get k m : JsMap.has k m = false <-> JsMap.get k m = None.
Proof.
  unfold JsMap.has. destruct (JsMap.get k m); split; congruence.
Qed.

Lemma get_set_same k v m : JsMap.get k (JsMap.set k v m) = Some v.
Proof.
  induction m as [|[k' v'] m IH]; simpl.
  - now rewrite String.eqb_refl.
  - destruct (String.eqb k' k) eqn:E; simpl; now rewrite E.
Qed.

Lemma get_set_other k k' v m :
  k <> k' -> JsMap.get k' (JsMap.set k v m) = JsMap.get k' m.
Proof.
  intros Hne. induction m as [|[k0 v0] m IH]; simpl.
  - apply String.eqb_neq in Hne. now rewrite Hne.
  - destruct (String.eqb k0 k) eqn:E; simpl.
    + apply String.eqb_eq in E. subst k0.
      apply String.eqb_neq in Hne. now rewrite Hne.
    + now rewrite IH.
Qed.

(** [set] on a key that the map lacks adds the entry at the end. *)
Lemma set_fresh k v m :
  JsMap.get k m = None -> JsMap.set k v m = (m ++ [(k, v)])%list.
Proof.
  induction m as [|[k0 v0] m IH]; simpl; [reflexivity|].
  destruct (String.eqb k0 k); [discriminate|].
  intros Hm. now rewrite IH.
Qed.

Lemma keys_set k v m :
  map fst (JsMap.set k v m)
  = if JsMap.has k m then map fst m else (map fst m ++ [k])%list.
Proof.
  unfold JsMap.has. induction m as [|[k0 v0] m IH]; simpl; [reflexivity|].
  destruct (String.eqb k0 k) eqn:E; simpl; [reflexivity|].
  rewrite IH. now destruct (JsMap.get k m).
Qed.

Lemma get_In k v m : JsMap.get k m = Some v -> In (k, v) m.
Proof.
  induction m as [|[k0 v0] m IH]; simpl; [discriminate|].
  destruct (String.eqb k0 k) eqn:E.
  - apply String.eqb_eq in E. intros [= ->]. left. congruence.
  - intros Hm. right. now apply IH.
Qed.

Lemma get_None_not_In k m : JsMap.get k m = None -> ~ In k (map fst m).
Proof.
  induction m as [|[k0 v0] m IH]; simpl; [tauto|].
  destruct (String.eqb k0 k) eqn:E; [discriminate|].
  apply String.eqb_neq in E. intros Hm [H|H]; [congruence|now apply IH].
Qed.

Lemma NoDup_keys_set k v m :
  NoDup (map fst m) -> NoDup (map fst (JsMap.set k v m)).
Proof.
  intros Hnd. rewrite keys_set. destruct (JsMap.has k m) eqn:E; [exact Hnd|].
  apply has_false_get, get_None_not_In in E.
  apply NoDup_app; [exact Hnd|repeat constructor; simpl; tauto|].
  intros x Hx [<-|[]]. contradiction.
Qed.

End JsMapFacts.

(** ** Registration *)

Section AddFacts.

Variable H : Type.
Implicit Types (r : Router H) (h : H).

Lemma add_success method path h r r' :
  add method path h r = (r', Returned tt) ->
  exists rx,
    JsMap.get (route_key method (normalizePath path)) (routes r) = None /\
    pathToRegex (normalizePath path) = Returned rx /\
    r' = {| routes :=
              (routes r ++
               [(route_key method (normalizePath path),
                 {| handler := h;
                    params := extractParams (normalizePath path);
                    regex := rx |})])%list;
            middlewares := middlewares r;
            paramHandlers := paramHandlers r |}.
Proof.
  unfold add.
  destruct (JsMap.has _ (routes r)) eqn:Hhas; [discriminate|].
  apply has_false_get in Hhas.
  destruct (pathToRegex (normalizePath path)) as [rx| |] eqn:Hrx;
    try discriminate.
  intros [= <-]. exists rx. rewrite set_fresh by exact Hhas. auto.
Qed.

End AddFacts.

(** C3: registering a (method, path) whose key is already in the route table
    throws the error [Route <method> <path> already exists] and leaves the
    router as it was, so that the route stored under the key keeps its
    handler, its parameter names and its matcher. *)
Theorem add_duplicate_rejected (H : Type) (method path : string) (h2 : H)
    (r : Router H) :
  JsMap.has (route_key method (normalizePath path)) (routes r) = true ->
  add method path h2 r
  = (r, Threw (Error ("Route " ++ method ++ " " ++ path ++ " already exists")))
  /\ JsMap.get (route_key method (normalizePath path))
       (routes (fst (add method path h2 r)))
     = JsMap.get (route_key method (normalizePath path)) (routes r).
Proof.
  intros Hhas. unfold add. rewrite Hhas. split; reflexivity.
Qed.

Lemma add_duplicate_rejected_witness :
  let r := fst (add "GET" "/users" 1 empty) in
  JsMap.has (route_key "get" (normalizePath "users/")) (routes r) = true /\
  add "get" "users/" 2 r
  = (r, Threw (Error "Route get users/ already exists")) /\
  option_map (@handler nat)
    (JsMap.get "GET:/users" (routes (fst (add "get" "users/" 2 r)))) = Some 1.
Proof.
  intros r.
  assert (Hhas : JsMap.has (route_key "get" (normalizePath "users/")) (routes r)
                 = true) by (vm_compute; reflexivity).
  destruct (add_duplicate_rejected "get" "users/" 2 r Hhas) as [Hadd Hget].
  split; [exact Hhas|]. split; [exact Hadd|].
  replace "GET:/users" with (route_key "get" (normalizePath "users/"))
    by (vm_compute; reflexivity).
  rewrite Hget. vm_compute. reflexivity.
Defined.

(** ** Route resolution *)

Section MatchFacts.

Variable H : Type.
Implicit Types (r : Router H) (h : H).

Lemma scan_passed_over methodUpper urlPath
    (before rest : list (string * Route H)) :
  Forall (passed_over methodUpper urlPath) before ->
  scan methodUpper urlPath (before ++ rest)%list
  = scan methodUpper urlPath rest.
Proof.
  induction 1 as [|[key route] before Hx _ IH]; simpl; [reflexivity|].
  destruct Hx as [Hm|He]; simpl in Hm || simpl in He.
  - apply String.eqb_neq in Hm. now rewrite Hm.
  - rewrite He. now destruct (negb _).
Qed.


Lemma scan_none methodUpper urlPath (l : list (string * Route H)) :
  Forall (passed_over methodUpper urlPath) l ->
  scan methodUpper urlPath l = None.
Proof.
  intros Hl. rewrite <- (app_nil_r l). now rewrite scan_passed_over.
Qed.

Lemma match_exact r method urlPath route :
  JsMap.get (route_key method urlPath) (routes r) = Some route ->
  match_ r method urlPath = Some (handler route, []).
Proof. unfold match_, route_key. now intros ->. Qed.

(** A route is found under its own key right after its registration. *)
Lemma match_after_add method path h r r' :
  add method path h r = (r', Returned tt) ->
  forall method', toUpperCase method' = toUpperCase method ->
  match_ r' method' (normalizePath path) = Some (h, []).
Proof.
  intros Hadd method' Hm.
  destruct (add_success _ _ _ _ Hadd) as (rx & Hnone & _ & ->).
  apply match_exact with
    (route := {| handler := h; params := extractParams (normalizePath path);
                 regex := rx |}).
  simpl routes. unfold route_key in *. rewrite Hm.
  rewrite <- set_fresh by exact Hnone. apply get_set_same.
Qed.

(** [add] registers its route, and the routes registered before stay
    registered, whether the call succeeds or not. *)
Lemma add_registers method path h r r' :
  add method path h r = (r', Returned tt) ->
  exists route, registered r' method path route /\ handler route = h.
Proof.
  intros Hadd.
  destruct (add_success _ _ _ _ Hadd) as (rx & Hnone & _ & ->).
  exists {| handler := h; params := extractParams (normalizePath path);
            regex := rx |}.
  split; [|reflexivity]. unfold registered. cbn [routes].
  rewrite <- set_fresh by exact Hnone. apply get_set_same.
Qed.

Lemma add_keeps_registered method' path' h' r method path route :
  registered r method path route ->
  registered (fst (add method' path' h' r)) method path route.
Proof.
  unfold registered, add. intros Hreg.
  destruct (JsMap.has _ (routes r)) eqn:Hhas; [exact Hreg|].
  destruct (pathToRegex (normalizePath path')); [|exact Hreg|exact Hreg].
  cbn [fst routes]. rewrite get_set_other; [exact Hreg|].
  intros Heq. rewrite Heq in Hhas. apply has_false_get in Hhas.
  congruence.
Qed.

End MatchFacts.




(** C4: with the single route [GET /users/:id], the request [GET /users/42]
    gets the route's handler and the parameters [{id: "42"}]; the route
    compiled from [/a/:x/b/:y] matches [/a/1/b/2] with the captures ["1"] and
    ["2"], bound in this order to [x] and [y]. *)
Theorem match_binds_parameters (H : Type) (h : H) :
  (snd (add "GET" "/users/:id" h empty) = Returned tt /\
   map fst (routes (fst (add "GET" "/users/:id" h empty))) = ["GET:/users/:id"] /\
   match_ (fst (add "GET" "/users/:id" h empty)) "GET" "/users/42"
   = Some (h, [("id", VString "42")])) /\
  (extractParams (normalizePath "/a/:x/b/:y") = ["x"; "y"] /\
   (exists rx,
      pathToRegex (normalizePath "/a/:x/b/:y") = Returned rx /\
      RegExp.exec rx "/a/1/b/2" = Some [Some "/a/1/b/2"; Some "1"; Some "2"]) /\
   match_ (fst (add "GET" "/a/:x/b/:y" h empty)) "GET" "/a/1/b/2"
   = Some (h, [("x", VString "1"); ("y", VString "2")])).
Proof.
  repeat split; try (vm_compute; reflexivity).
  eexists. split; vm_compute; reflexivity.
Qed.

(** ** The pipeline *)

Lemma is_false_spec (v : jsval) : is_false v = true <-> v = VBool false.
Proof.
  destruct v as [| |[]| | |]; simpl; split; intros E;
    congruence || discriminate.
Qed.

Section JsonFacts.

Lemma quote_body_app (a b : string) :
  Json.quote_body (a ++ b) = Json.quote_body a ++ Json.quote_body b.
Proof.
  induction a as [|c a IH]; simpl; [reflexivity|].
  now rewrite IH, append_assoc.
Qed.

Lemma quote_char_plain (c : ascii) :
  Json.needs_escape c = false -> Json.quote_char c = String c EmptyString.
Proof.
  unfold Json.needs_escape, Json.quote_char. intros Hc.
  apply orb_false_elim in Hc. destruct Hc as [Hc H32].
  apply orb_false_elim in Hc. destruct Hc as [H34 Hbs].
  rewrite H34, Hbs, H32.
  apply N.ltb_ge in H32.
  repeat match goal with
         | |- context [(code c =? ?n)%N] =>
             destruct (N.eqb_spec (code c) n) as [E|_]; [lia|]
         end.
  reflexivity.
Qed.

Lemma quote_body_plain (s : string) :
  Json.plain s = true -> Json.quote_body s = s.
Proof.
  unfold Json.plain. induction s as [|c s IH]; simpl; [reflexivity|].
  rewrite negb_orb. intros Hs. apply andb_true_iff in Hs.
  destruct Hs as [Hc Hs]. apply negb_true_iff in Hc.
  now rewrite (quote_char_plain _ Hc), IH.
Qed.

Lemma not_found_body_template (pathname : string) :
  not_found_body pathname
  = Json.not_found_template (Json.quote_body pathname).
Proof.
  unfold not_found_body, Json.not_found_template, Json.stringify,
    Json.member, Json.quote.
  cbn [map String.concat fst snd].
  rewrite !quote_body_app.
  change (Json.quote_body "Route ") with "Route ".
  change (Json.quote_body " not found") with " not found".
  change (Json.quote_body "error") with "error".
  change (Json.quote_body "Not Found") with "Not Found".
  change (Json.quote_body "message") with "message".
  rewrite !append_assoc. reflexivity.
Qed.

End JsonFacts.

Section DispatchFacts.

Variable H : Type.
Variable World : Type.
Variable call_middleware : H -> World -> World * outcome jsval.
Variable call_param :
  H -> jsval -> string -> obj -> World -> World * obj * outcome unit.
Variable call_handler : H -> obj -> World -> World * outcome unit.
Variable res_writeHead : nat -> list (string * string) -> World -> World.
Variable res_end : string -> World -> World.

Local Abbreviation run_mws := (run_middlewares call_middleware).
Local Abbreviation run_hooks := (run_params call_param).
Local Abbreviation finish :=
  (finish_dispatch call_param call_handler res_writeHead res_end).
Local Abbreviation after_mws :=
  (after_middlewares call_param call_handler res_writeHead res_end).
Local Abbreviation handle' :=
  (handle call_middleware call_param call_handler res_writeHead res_end).

Implicit Types (r : Router H) (req : Request) (w : World)
  (tr : list (event H)).

(** The loop over a list of middlewares in two parts. *)
Lemma run_middlewares_app index before after pathname w :
  run_mws index (before ++ after)%list pathname w
  = match run_mws index before pathname w with
    | (w1, tr1, Continue) =>
        let '(w2, tr2, f) :=
          run_mws (index + List.length before) after pathname w1 in
        (w2, (tr1 ++ tr2)%list, f)
    | x => x
    end.
Proof.
  revert index w. induction before as [|mw before IH]; intros index w.
  - simpl. rewrite Nat.add_0_r.
    now destruct (run_mws index after pathname w) as [[? ?] ?].
  - simpl.
    destruct (pathToRegex _) as [rx| |]; try reflexivity.
    destruct (RegExp.test rx pathname).
    + destruct (call_middleware _ w) as [w' [v| |]]; try reflexivity.
      destruct (is_false v); [reflexivity|].
      rewrite IH, <- Nat.add_succ_comm.
      destruct (run_mws (S index) before pathname w') as [[w1 tr1] [| | |]];
        try reflexivity.
      now destruct (run_mws _ after pathname w1) as [[? ?] ?].
    + now rewrite IH, <- Nat.add_succ_comm.
Qed.

(** The loop over the middlewares calls middlewares only, each at its own
    position. *)
Lemma run_middlewares_events index mws pathname w w1 tr1 f :
  run_mws index mws pathname w = (w1, tr1, f) ->
  Forall (fun e => exists i h, e = EvMiddleware i h /\
                               index <= i < index + List.length mws) tr1.
Proof.
  revert index w w1 tr1 f.
  induction mws as [|mw mws IH]; intros index w w1 tr1 f; simpl.
  - intros [= <- <- <-]. constructor.
  - assert (Hweak : forall tr,
               Forall (fun e => exists i h, e = EvMiddleware i h /\
                                 S index <= i < S index + List.length mws) tr ->
               Forall (fun e : event H => exists i h, e = EvMiddleware i h /\
                                 index <= i < index + S (List.length mws)) tr).
    { intros tr. apply Forall_impl. intros e (i & h & -> & Hi).
      exists i, h. split; [reflexivity|lia]. }
    assert (Hhere : forall h : H, exists i h', EvMiddleware index h = EvMiddleware i h'
                               /\ index <= i < index + S (List.length mws)).
    { intros h. exists index, h. split; [reflexivity|lia]. }
    destruct (pathToRegex _) as [rx| |].
    + destruct (RegExp.test rx pathname).
      * destruct (call_middleware _ w) as [w' [v| |]].
        -- destruct (is_false v).
           ++ intros [= <- <- <-]. repeat constructor. apply Hhere.
           ++ destruct (run_mws (S index) mws pathname w')
                as [[w2 tr2] f2] eqn:E.
              intros [= <- <- <-]. constructor; [apply Hhere|].
              apply Hweak. eapply IH, E.
        -- intros [= <- <- <-]. repeat constructor. apply Hhere.
        -- intros [= <- <- <-]. repeat constructor. apply Hhere.
      * intros E. apply Hweak. eapply IH, E.
    + intros [= <- <- <-]. constructor.
    + intros [= <- <- <-]. constructor.
Qed.

Lemma middleware_events_only tr index n :
  Forall (fun e : event H => exists i h, e = EvMiddleware i h /\
                               index <= i < index + n) tr ->
  forallb (@is_middleware_event H) tr = true.
Proof.
  induction 1 as [|e tr (i & h & -> & _) _ IH]; simpl; auto.
Qed.

(** The step of the loop at a middleware whose pattern accepts the path
    and whose call returns [v]. *)
Lemma run_middlewares_step index mw after pathname w rx w2 v :
  pathToRegex (normalizePath (path mw)) = Returned rx ->
  RegExp.test rx pathname = true ->
  call_middleware (mw_handler mw) w = (w2, Returned v) ->
  run_mws index (mw :: after) pathname w
  = if is_false v then (w2, [EvMiddleware index (mw_handler mw)], Return)
    else let '(w3, tr3, f) := run_mws (S index) after pathname w2 in
         (w3, EvMiddleware index (mw_handler mw) :: tr3, f).
Proof. intros Hrx Ht Hc. simpl. now rewrite Hrx, Ht, Hc. Qed.

(** C5: when a middleware whose pattern accepts the request path returns
    [false], [handle] returns at once: its trace is made of the calls of
    the middlewares up to that one, so no later middleware, no param hook
    and no route handler is called and no 404 response is written.  When
    the middleware returns anything else, the pipeline goes on: the
    middlewares after it are run, and when they let the request through
    too, the request is matched; a request that matches nothing gets the
    two writes of the 404 response, and for one that matches a route the
    param hooks are run and, when they all return, the route handler is
    called.  A later middleware that stops the pipeline ends [handle]
    with what it did. *)
Theorem middleware_false_stops r req w before mw after w1 tr1 rx w2 v :
  middlewares r = (before ++ mw :: after)%list ->
  run_mws 0 before (req_pathname req) w = (w1, tr1, Continue) ->
  pathToRegex (normalizePath (path mw)) = Returned rx ->
  RegExp.test rx (req_pathname req) = true ->
  call_middleware (mw_handler mw) w1 = (w2, Returned v) ->
  let ev := EvMiddleware (List.length before) (mw_handler mw) in
  (v = VBool false ->
   handle' r req w = (w2, (tr1 ++ [ev])%list, Returned tt) /\
   Forall (fun e => exists i h, e = EvMiddleware i h /\ i <= List.length before)
     (tr1 ++ [ev])%list) /\
  (v <> VBool false ->
   forall w3 tr3 f,
     run_mws (S (List.length before)) after (req_pathname req) w2
     = (w3, tr3, f) ->
     let tr := (tr1 ++ ev :: tr3)%list in
     match f with
     | Continue =>
         match match_ r (req_method req) (req_pathname req) with
         | None =>
             let body := not_found_body (req_pathname req) in
             handle' r req w
             = (res_end body (res_writeHead 404 not_found_headers w3),
                (tr ++ [EvWriteHead 404 not_found_headers; EvEnd body])%list,
                Returned tt)
         | Some (h, ps) =>
             forall w4 ps4 tr4,
               run_hooks (paramHandlers r) ps w3
               = (w4, ps4, tr4, Continue) ->
               handle' r req w
               = (fst (call_handler h ps4 w4),
                  (tr ++ tr4 ++ [EvHandler h])%list,
                  snd (call_handler h ps4 w4))
         end
     | Return => handle' r req w = (w3, tr, Returned tt)
     | Abort e => handle' r req w = (w3, tr, Threw e)
     | Stuck => handle' r req w = (w3, tr, Unmodelled)
     end).
Proof.
  intros Hm Hb Hrx Ht Hc ev. unfold handle.
  rewrite Hm, run_middlewares_app, Hb. simpl Nat.add.
  rewrite (run_middlewares_step _ _ _ _ Hrx Ht Hc).
  split.
  - intros ->. simpl is_false. cbv iota. split; [reflexivity|].
    apply Forall_app. split.
    + apply run_middlewares_events in Hb. revert Hb. apply Forall_impl.
      intros e (i & h & -> & Hi). exists i, h. split; [reflexivity|lia].
    + repeat constructor. exists (List.length before), (mw_handler mw). auto.
  - intros Hv w3 tr3 f Hrest. cbv zeta. destruct (is_false v) eqn:E.
    + apply is_false_spec in E. contradiction.
    + rewrite Hrest. unfold after_middlewares.
      destruct f; try reflexivity.
      destruct (match_ r (req_method req) (req_pathname req))
        as [[h ps]|]; unfold finish_dispatch.
      * intros w4 ps4 tr4 Hhooks. rewrite Hhooks.
        now destruct (call_handler h ps4 w4).
      * reflexivity.
Qed.

(** C6 (as amended): a request that the middlewares let through and that
    matches no route gets the status 404, the header
    [Content-Type: application/json] and, as the body, the JSON text of an
    object with the members [error] and [message] in this order, the path
    in the message quoted as [JSON.stringify] quotes a string: the path
    itself when it holds no double quote, no backslash and no control
    character, and the path with these code units escaped otherwise. *)
Theorem not_found_response r req w w1 tr1 :
  run_mws 0 (middlewares r) (req_pathname req) w = (w1, tr1, Continue) ->
  match_ r (req_method req) (req_pathname req) = None ->
  let body := Json.not_found_template (Json.quote_body (req_pathname req)) in
  let headers := [("Content-Type", "application/json")] in
  handle' r req w
  = (res_end body (res_writeHead 404 headers w1),
     (tr1 ++ [EvWriteHead 404 headers; EvEnd body])%list,
     Returned tt) /\
  (Json.plain (req_pathname req) = true ->
   body = Json.not_found_template (req_pathname req)).
Proof.
  intros Hm Hn body headers. unfold handle, after_middlewares.
  rewrite Hm, Hn. unfold finish_dispatch.
  rewrite not_found_body_template. split; [reflexivity|].
  intros Hp. unfold body. now rewrite quote_body_plain.
Qed.

(** *** Param hooks *)

Lemma run_params_well_behaved hooks ps w :
  (forall name hk v w',
      In (name, hk) hooks ->
      exists w'', call_param hk v name ps w' = (w'', ps, Returned tt)) ->
  exists w', run_hooks hooks ps w = (w', ps, hook_events ps hooks, Continue).
Proof.
  revert w. induction hooks as [|[name hk] hooks IH]; intros w Hwb.
  - now exists w.
  - assert (Hrest : forall name hk v w',
               In (name, hk) hooks ->
               exists w'', call_param hk v name ps w' = (w'', ps, Returned tt)).
    { intros n k v w' Hin. apply Hwb. now right. }
    unfold hook_events. simpl.
    destruct (truthy (obj_get ps name)) eqn:Ht.
    + destruct (Hwb name hk (obj_get ps name) w (or_introl eq_refl))
        as (w1 & ->).
      destruct (IH w1 Hrest) as (w2 & ->). now exists w2.
    + apply (IH w Hrest).
Qed.

Lemma param_calls_app name tr tr' :
  param_calls name (tr ++ tr')%list
  = param_calls name tr + param_calls name tr'.
Proof.
  induction tr as [|[] tr IH]; simpl; try exact IH; [reflexivity|].
  rewrite IH. lia.
Qed.

Lemma param_calls_middleware name tr :
  forallb (@is_middleware_event H) tr = true -> param_calls name tr = 0.
Proof.
  induction tr as [|[] tr IH]; simpl; try discriminate; auto.
Qed.

Lemma param_calls_absent name ps (hooks : list (string * H)) :
  ~ In name (map fst hooks) -> param_calls name (hook_events ps hooks) = 0.
Proof.
  unfold hook_events.
  induction hooks as [|[n hk] hooks IH]; simpl; [reflexivity|].
  intros Hn. destruct (truthy (obj_get ps n)); simpl.
  - destruct (String.eqb_spec n name) as [->|_]; [tauto|]. apply IH. tauto.
  - apply IH. tauto.
Qed.

Lemma param_calls_hook_events name ps (hooks : list (string * H)) :
  NoDup (map fst hooks) ->
  param_calls name (hook_events ps hooks)
  = if JsMap.has name hooks && truthy (obj_get ps name) then 1 else 0.
Proof.
  unfold JsMap.has.
  induction hooks as [|[n hk] hooks IH]; simpl; [reflexivity|].
  intros Hnd. inversion Hnd as [|? ? Hn Hnd']; subst.
  destruct (String.eqb_spec n name) as [->|Hne].
  - unfold hook_events. simpl.
    destruct (truthy (obj_get ps name)) eqn:Ht; simpl.
    + rewrite String.eqb_refl.
      fold (hook_events ps hooks). now rewrite param_calls_absent.
    + fold (hook_events ps hooks). now rewrite param_calls_absent.
  - rewrite <- (IH Hnd'). unfold hook_events. simpl.
    destruct (truthy (obj_get ps n)); simpl; [|reflexivity].
    apply String.eqb_neq in Hne. now rewrite Hne.
Qed.

(** X19: the guard of the param hooks is the truthiness of a lookup.
    When the middlewares let the request through and a route matches,
    [handle] calls, after all the calls of middlewares and before the
    route handler, the hooks of the names whose lookup in the match's
    parameter object gives a truthy value, in the order of the hook table
    and each with that value; so the hook of a name is called once if the
    lookup of the name gives a truthy value and not at all otherwise.
    This is for hooks that return normally and leave the parameter object
    as they find it. *)
Theorem param_hooks_fire_on_truthy r req w w1 tr1 h ps :
  run_mws 0 (middlewares r) (req_pathname req) w = (w1, tr1, Continue) ->
  match_ r (req_method req) (req_pathname req) = Some (h, ps) ->
  NoDup (map fst (paramHandlers r)) ->
  (forall name hk v w',
      In (name, hk) (paramHandlers r) ->
      exists w'', call_param hk v name ps w' = (w'', ps, Returned tt)) ->
  exists w2 w3 o,
    run_hooks (paramHandlers r) ps w1
    = (w2, ps, hook_events ps (paramHandlers r), Continue) /\
    call_handler h ps w2 = (w3, o) /\
    handle' r req w
    = (w3, (tr1 ++ hook_events ps (paramHandlers r) ++ [EvHandler h])%list, o) /\
    forallb (@is_middleware_event H) tr1 = true /\
    forall name,
      param_calls name
        (tr1 ++ hook_events ps (paramHandlers r) ++ [EvHandler h])%list
      = if JsMap.has name (paramHandlers r) && truthy (obj_get ps name)
        then 1 else 0.
Proof.
  intros Hm Hmatch Hnd Hwb.
  destruct (@run_params_well_behaved (paramHandlers r) ps w1 Hwb) as (w2 & Hrun).
  destruct (call_handler h ps w2) as [w3 o] eqn:Hcall.
  exists w2, w3, o.
  assert (Hmw : forallb (@is_middleware_event H) tr1 = true).
  { eapply middleware_events_only, run_middlewares_events, Hm. }
  repeat split; trivial.
  - unfold handle, after_middlewares, finish_dispatch.
    now rewrite Hm, Hmatch, Hrun, Hcall.
  - intros name. rewrite !param_calls_app.
    rewrite (param_calls_middleware _ _ Hmw).
    rewrite param_calls_hook_events by exact Hnd. simpl. lia.
Qed.

(** C8 (as amended): [handle] hands the path of the request to the
    middleware patterns and to [match] as it is.  A request whose path is
    the normalized path of a registered route, whichever route of the
    table it is, with the route's method in any letter case, is resolved
    through the exact key to that route's handler with an empty parameter
    object: after the middlewares, the param hooks are run on the empty
    object and the handler of the route is called. *)
Theorem dispatch_exact_on_normalized_path r method path route req w w1 tr1 :
  registered r method path route ->
  toUpperCase (req_method req) = toUpperCase method ->
  req_pathname req = normalizePath path ->
  run_mws 0 (middlewares r) (req_pathname req) w = (w1, tr1, Continue) ->
  match_ r (req_method req) (req_pathname req) = Some (handler route, []) /\
  handle' r req w
  = (let '(w2, tr2, o) :=
       finish r (Some (handler route, [])) (req_pathname req) w1 in
     (w2, (tr1 ++ tr2)%list, o)) /\
  (forall w2 ps2 tr2,
      run_hooks (paramHandlers r) [] w1 = (w2, ps2, tr2, Continue) ->
      handle' r req w
      = (fst (call_handler (handler route) ps2 w2),
         (tr1 ++ tr2 ++ [EvHandler (handler route)])%list,
         snd (call_handler (handler route) ps2 w2))).
Proof.
  intros Hreg Hmeth Hpath Hm.
  assert (Hmatch : match_ r (req_method req) (req_pathname req)
                   = Some (handler route, [])).
  { rewrite Hpath. apply match_exact. unfold route_key.
    rewrite Hmeth. exact Hreg. }
  split; [exact Hmatch|].
  unfold handle, after_middlewares. rewrite Hm, Hmatch.
  split; [reflexivity|].
  intros w2 ps2 tr2 Hhooks. unfold finish_dispatch. rewrite Hhooks.
  now destruct (call_handler (handler route) ps2 w2).
Qed.

End DispatchFacts.

(** ** A concrete instance *)

Lemma middleware_false_stops_witness :
  demo_handle preflight_router
    {| req_method := "OPTIONS"; req_pathname := "/anything" |} []
  = ([1; 0], [EvMiddleware 0 1; EvMiddleware 1 0], Returned tt) /\
  demo_handle users_router
    {| req_method := "GET"; req_pathname := "/users/42" |} []
  = ([1; 8; 7],
     [EvMiddleware 0 1; EvParam "id" 8 (VString "42"); EvHandler 7],
     Returned tt).
Proof.
  split.
  - assert (Hrx : exists rx,
               pathToRegex (normalizePath "/anything") = Returned rx
               /\ RegExp.test rx "/anything" = true).
    { eexists. split; vm_compute; reflexivity. }
    destruct Hrx as (rx & Hrx & Ht).
    assert (Hm : middlewares preflight_router
                 = ([{| path := "/*"; mw_handler := 1 |}]
                    ++ {| path := "/anything"; mw_handler := 0 |}
                    :: [{| path := "/*"; mw_handler := 2 |}])%list)
      by (vm_compute; reflexivity).
    assert (Hb : run_middlewares demo_middleware 0
                   [{| path := "/*"; mw_handler := 1 |}] "/anything" []
                 = ([1], [EvMiddleware 0 1], Continue))
      by (vm_compute; reflexivity).
    assert (Hc : demo_middleware 0 [1] = ([1; 0], Returned (VBool false)))
      by (vm_compute; reflexivity).
    apply (@middleware_false_stops nat (list nat) demo_middleware demo_param
             demo_handler demo_writeHead demo_end preflight_router
             {| req_method := "OPTIONS"; req_pathname := "/anything" |} []
             [{| path := "/*"; mw_handler := 1 |}]
             {| path := "/anything"; mw_handler := 0 |}
             [{| path := "/*"; mw_handler := 2 |}]
             [1] [EvMiddleware 0 1] rx [1; 0] (VBool false)
             Hm Hb Hrx Ht Hc).
    reflexivity.
  - assert (Hrx : exists rx,
               pathToRegex (normalizePath "/*") = Returned rx
               /\ RegExp.test rx "/users/42" = true).
    { eexists. split; vm_compute; reflexivity. }
    destruct Hrx as (rx & Hrx & Ht).
    assert (Hm : middlewares users_router
                 = ([] ++ {| path := "/*"; mw_handler := 1 |} :: [])%list)
      by (vm_compute; reflexivity).
    assert (Hb : run_middlewares demo_middleware 0 [] "/users/42" []
                 = ([], [], Continue)) by reflexivity.
    assert (Hc : demo_middleware 1 [] = ([1], Returned VUndefined))
      by (vm_compute; reflexivity).
    assert (Hv : VUndefined <> VBool false) by discriminate.
    assert (Hrest : run_middlewares demo_middleware 1 [] "/users/42" [1]
                    = ([1], [], Continue)) by reflexivity.
    assert (Hmatch : match_ users_router "GET" "/users/42"
                     = Some (7, [("id", VString "42")]))
      by (vm_compute; reflexivity).
    assert (Hhooks : run_params demo_param (paramHandlers users_router)
                       [("id", VString "42")] [1]
                     = ([1; 8], [("id", VString "42")],
                        [EvParam "id" 8 (VString "42")], Continue))
      by (vm_compute; reflexivity).
    pose proof (proj2 (@middleware_false_stops nat (list nat) demo_middleware
                         demo_param demo_handler demo_writeHead demo_end
                         users_router
                         {| req_method := "GET"; req_pathname := "/users/42" |}
                         [] [] {| path := "/*"; mw_handler := 1 |} []
                         [] [] rx [1] VUndefined Hm Hb Hrx Ht Hc)
                  Hv [1] [] Continue Hrest) as Hgo.
    cbv zeta in Hgo. cbn [req_method req_pathname] in Hgo.
    rewrite Hmatch in Hgo.
    unfold demo_handle. rewrite (Hgo _ _ _ Hhooks). reflexivity.
Defined.

Lemma not_found_response_witness :
  demo_handle users_router {| req_method := "GET"; req_pathname := "/nope" |} []
  = ([1; 404],
     [EvMiddleware 0 1;
      EvWriteHead 404 [("Content-Type", "application/json")];
      EvEnd (Json.not_found_template "/nope")],
     Returned tt).
Proof.
  assert (Hm : run_middlewares demo_middleware 0 (middlewares users_router)
                 "/nope" []
               = ([1], [EvMiddleware 0 1], Continue))
    by (vm_compute; reflexivity).
  assert (Hn : match_ users_router "GET" "/nope" = None)
    by (vm_compute; reflexivity).
  assert (Hp : Json.plain "/nope" = true) by (vm_compute; reflexivity).
  destruct (@not_found_response nat (list nat) demo_middleware demo_param
              demo_handler demo_writeHead demo_end users_router
              {| req_method := "GET"; req_pathname := "/nope" |} []
              [1] [EvMiddleware 0 1] Hm Hn) as [Hh Hb].
  unfold demo_handle. rewrite Hh. rewrite (Hb Hp).
  vm_compute. reflexivity.
Defined.

(** C6 as stated fails on a path that holds a double quote: the body is
    the text that [JSON.stringify] writes, where the quote of the path
    comes after a backslash, and not the text of the claim around the path
    itself. *)
Lemma not_found_body_escapes_quote :
  match_ users_router "GET" quoted_path = None /\
  demo_handle users_router
    {| req_method := "GET"; req_pathname := quoted_path |} []
  = ([1; 404],
     [EvMiddleware 0 1;
      EvWriteHead 404 [("Content-Type", "application/json")];
      EvEnd (Json.not_found_template ("/a\" ++ Json.dq ++ "b"))],
     Returned tt) /\
  Json.not_found_template ("/a\" ++ Json.dq ++ "b")
  <> Json.not_found_template quoted_path.
Proof.
  split; [vm_compute; reflexivity|]. split; [vm_compute; reflexivity|].
  vm_compute. discriminate.
Qed.

Lemma param_hooks_fire_on_truthy_witness :
  demo_handle users_router
    {| req_method := "GET"; req_pathname := "/users/42" |} []
  = ([1; 8; 7],
     [EvMiddleware 0 1; EvParam "id" 8 (VString "42"); EvHandler 7],
     Returned tt) /\
  param_calls "id"
    [EvMiddleware 0 1; EvParam "id" 8 (VString "42"); EvHandler 7] = 1 /\
  param_calls "other"
    [EvMiddleware 0 1; EvParam "id" 8 (VString "42"); @EvHandler nat 7] = 0.
Proof.
  assert (Hnd : NoDup (map fst (paramHandlers users_router))).
  { vm_compute. repeat constructor; simpl; intuition discriminate. }
  assert (Hwb : forall name hk v w',
             In (name, hk) (paramHandlers users_router) ->
             exists w'', demo_param hk v name [("id", VString "42")] w'
                         = (w'', [("id", VString "42")], Returned tt)).
  { intros name hk v w' _. eexists. reflexivity. }
  assert (Hm : run_middlewares demo_middleware 0 (middlewares users_router)
                 "/users/42" []
               = ([1], [EvMiddleware 0 1], Continue))
    by (vm_compute; reflexivity).
  assert (Hmatch : match_ users_router "GET" "/users/42"
                   = Some (7, [("id", VString "42")]))
    by (vm_compute; reflexivity).
  destruct (@param_hooks_fire_on_truthy nat (list nat) demo_middleware
              demo_param demo_handler demo_writeHead demo_end users_router
              {| req_method := "GET"; req_pathname := "/users/42" |} []
              [1] [EvMiddleware 0 1] 7 [("id", VString "42")]
              Hm Hmatch Hnd Hwb)
    as (w2 & w3 & o & Hrun & Hcall & Hh & _ & Hcount).
  assert (Hev : hook_events [("id", VString "42")] (paramHandlers users_router)
                = [EvParam "id" 8 (VString "42")])
    by (vm_compute; reflexivity).
  rewrite Hev in *.
  assert (Hrun' : run_params demo_param (paramHandlers users_router)
                    [("id", VString "42")] [1]
                  = ([1; 8], [("id", VString "42")],
                     [EvParam "id" 8 (VString "42")], Continue))
    by (vm_compute; reflexivity).
  rewrite Hrun' in Hrun. injection Hrun as <-.
  assert (Hcall' : demo_handler 7 [("id", VString "42")] [1; 8]
                   = ([1; 8; 7], Returned tt)) by (vm_compute; reflexivity).
  rewrite Hcall' in Hcall. injection Hcall as <- <-.
  split; [exact Hh|]. split.
  - exact (Hcount "id").
  - exact (Hcount "other").
Defined.

(** C7 at its failing input: the route [GET /users] binds no parameter,
    and the hook registered for the name [constructor] is called all the
    same, once, with a value that no request brought.  The guard of the
    loop looks the name up in the parameter object and tests the result,
    and the lookup of a name that the object does not hold reaches
    [Object.prototype]. *)
Lemma param_hook_fires_on_unbound_name :
  match_ plain_router "GET" "/users" = Some (7, []) /\
  JsMap.get "constructor" (@nil (string * jsval)) = None /\
  demo_handle plain_router {| req_method := "GET"; req_pathname := "/users" |} []
  = ([8; 7], [EvParam "constructor" 8 (VObject 0); EvHandler 7], Returned tt) /\
  param_calls "constructor"
    [EvParam "constructor" 8 (VObject 0); @EvHandler nat 7] = 1.
Proof. repeat split; vm_compute; reflexivity. Qed.

Lemma dispatch_exact_on_normalized_path_witness :
  demo_handle exact_router {| req_method := "get"; req_pathname := "/users" |} []
  = ([2], [EvHandler 2], Returned tt).
Proof.
  assert (Hreg : exists route,
             registered exact_router "GET" "users/" route
             /\ handler route = 2).
  { eexists. split; vm_compute; reflexivity. }
  destruct Hreg as (route & Hreg & Hh).
  assert (Hmeth : toUpperCase "get" = toUpperCase "GET")
    by (vm_compute; reflexivity).
  assert (Hpath : "/users" = normalizePath "users/")
    by (vm_compute; reflexivity).
  assert (Hm : run_middlewares demo_middleware 0 (middlewares exact_router)
                 "/users" []
               = ([], [], Continue)) by (vm_compute; reflexivity).
  assert (Hhooks : run_params demo_param (paramHandlers exact_router) [] []
                   = ([], [], [], Continue)) by (vm_compute; reflexivity).
  destruct (@dispatch_exact_on_normalized_path nat (list nat) demo_middleware
              demo_param demo_handler demo_writeHead demo_end
              exact_router "GET" "users/" route
              {| req_method := "get"; req_pathname := "/users" |} [] [] []
              Hreg Hmeth Hpath Hm) as (_ & _ & Hgo).
  unfold demo_handle. rewrite (Hgo _ _ _ Hhooks), Hh. reflexivity.
Defined.

(** C8 as stated fails: the path of the request is not normalized.  With the
    route [GET /users], the request [GET /users/], whose normalized path is
    [/users], matches nothing and gets the 404 response, while [GET /users]
    gets the route's handler. *)
Lemma request_path_not_normalized :
  normalizePath "/users/" = "/users" /\
  match_ users_only "GET" (normalizePath "/users/") = Some (7, []) /\
  match_ users_only "GET" "/users/" = None /\
  demo_handle users_only {| req_method := "GET"; req_pathname := "/users/" |} []
  = ([404],
     [EvWriteHead 404 [("Content-Type", "application/json")];
      EvEnd (Json.not_found_template "/users/")],
     Returned tt) /\
  demo_handle users_only {| req_method := "GET"; req_pathname := "/users" |} []
  = ([7], [EvHandler 7], Returned tt).
Proof. repeat split; vm_compute; reflexivity. Qed.

(** ** Compiled paths *)

Section TokenFacts.

Lemma replaceStars_app (a b : string) :
  replaceStars (a ++ b) = replaceStars a ++ replaceStars b.
Proof.
  induction a as [|c a IH]; simpl; [reflexivity|].
  destruct (Ascii.eqb c "*"); simpl; now rewrite IH.
Qed.

Lemma replaceStars_cons (c : ascii) (t : string) :
  replaceStars (String c t) = token_source (PChar c) ++ replaceStars t.
Proof. simpl. now destruct (Ascii.eqb c "*"). Qed.

Lemma word_not_slash (c : ascii) : is_word c = true -> Ascii.eqb c "/" = false.
Proof.
  intros Hw. destruct (Ascii.eqb_spec c "/") as [->|]; [discriminate|reflexivity].
Qed.

(** The scan of [replaceParams_from], read off the list of tokens: the
    text it produces, the code units it copies, the number of parameters
    it replaces. *)
Lemma scan_tokens (n : nat) :
  forall s, String.length s <= n -> forall skip,
    replaceStars (replaceParams_from skip s)
    = tokens_source (path_tokens skip s) /\
    (every simple_char s = true ->
     Forall simple_token (path_tokens skip s)) /\
    (colon_ok s = true ->
     count_params (path_tokens skip s) = colon_segments s).
Proof.
  induction n as [|n IH]; intros s Hlen skip.
  - destruct s; [|simpl in Hlen; lia]. simpl. auto.
  - destruct s as [|c t]; [simpl; auto|].
    simpl in Hlen.
    assert (Ht : String.length t <= n) by lia.
    simpl replaceParams_from. simpl path_tokens.
    destruct (skip && is_word c) eqn:Hskip.
    + (* inside the name of a parameter *)
      apply andb_true_iff in Hskip. destruct Hskip as [_ Hw].
      destruct (IH t Ht true) as (Hsrc & Hsimple & Hcount).
      split; [exact Hsrc|]. split.
      * simpl. intros Hall. apply andb_true_iff in Hall. now apply Hsimple.
      * simpl. rewrite (word_not_slash _ Hw). simpl.
        intros Hok. now apply Hcount.
    + destruct t as [|c1 [|c2 t']].
      * simpl. split; [now destruct (Ascii.eqb c "*")|]. split.
        -- intros Hall. apply andb_true_iff in Hall.
           repeat constructor. apply Hall.
        -- rewrite andb_false_r. reflexivity.
      * destruct (IH _ Ht false) as (Hsrc & Hsimple & Hcount).
        split; [|split].
        -- rewrite replaceStars_cons, Hsrc. reflexivity.
        -- intros Hall. simpl in Hall. apply andb_true_iff in Hall.
           constructor; [apply Hall|]. apply Hsimple. apply Hall.
        -- intros Hok. change (colon_ok (String c (String c1 EmptyString)))
             with ((if Ascii.eqb c "/" && startsWith ":" (String c1 EmptyString)
                    then false else true)
                   && colon_ok (String c1 EmptyString)) in Hok.
           apply andb_true_iff in Hok. destruct Hok as [Hhere Hok].
           change (colon_segments (String c (String c1 EmptyString)))
             with ((if Ascii.eqb c "/" && startsWith ":" (String c1 EmptyString)
                    then 1 else 0)
                   + colon_segments (String c1 EmptyString)).
           destruct (Ascii.eqb c "/" && startsWith ":" (String c1 EmptyString));
             [discriminate|].
           unfold count_params in *. simpl. now apply Hcount.
      * destruct (Ascii.eqb c "/" && Ascii.eqb c1 ":" && is_word c2) eqn:Hpar.
        -- (* a parameter *)
           apply andb_true_iff in Hpar. destruct Hpar as [Hpar Hw2].
           apply andb_true_iff in Hpar. destruct Hpar as [Hc Hc1].
           apply Ascii.eqb_eq in Hc, Hc1. subst c c1.
           assert (Ht' : String.length t' <= n) by (simpl in Ht; lia).
           destruct (IH t' Ht' true) as (Hsrc & Hsimple & Hcount).
           split; [|split].
           ++ simpl. rewrite Hsrc. reflexivity.
           ++ intros Hall. simpl in Hall.
              repeat (apply andb_true_iff in Hall; destruct Hall as [_ Hall]).
              constructor; [exact I|]. now apply Hsimple.
           ++ intros Hok. simpl in Hok.
              rewrite Hw2, (word_not_slash _ Hw2) in Hok. simpl in Hok.
              simpl colon_segments. rewrite (word_not_slash _ Hw2). simpl.
              unfold count_params in *. simpl. f_equal. now apply Hcount.
        -- destruct (IH _ Ht false) as (Hsrc & Hsimple & Hcount).
           split; [|split].
           ++ rewrite replaceStars_cons, Hsrc. reflexivity.
           ++ intros Hall.
              change (every simple_char (String c (String c1 (String c2 t'))))
                with (simple_char c
                      && every simple_char (String c1 (String c2 t'))) in Hall.
              apply andb_true_iff in Hall.
              constructor; [apply Hall|]. apply Hsimple. apply Hall.
           ++ intros Hok.
              change (colon_ok (String c (String c1 (String c2 t'))))
                with ((if Ascii.eqb c "/" && (Ascii.eqb c1 ":" && true)
                       then is_word c2 else true)
                      && colon_ok (String c1 (String c2 t'))) in Hok.
              change (colon_segments (String c (String c1 (String c2 t'))))
                with ((if Ascii.eqb c "/" && (Ascii.eqb c1 ":" && true)
                       then 1 else 0)
                      + colon_segments (String c1 (String c2 t'))).
              apply andb_true_iff in Hok. destruct Hok as [Hhere Hok].
              rewrite andb_true_r in *.
              destruct (Ascii.eqb c "/" && Ascii.eqb c1 ":") eqn:Hcc.
              ** simpl in Hpar. congruence.
              ** unfold count_params in *. simpl. now apply Hcount.
Qed.

Lemma tokens_of_path (p : string) :
  replaceStars (replaceParams p) = tokens_source (path_tokens false p) /\
  (every simple_char p = true -> Forall simple_token (path_tokens false p)) /\
  (colon_ok p = true ->
   count_params (path_tokens false p) = colon_segments p).
Proof. apply (scan_tokens (n := String.length p)). lia. Qed.

End TokenFacts.

Section ExtractParamsFacts.

Lemma extractParams_fold (l : list string) (acc : list string) :
  fold_left
    (fun params segment =>
       if startsWith ":" segment then (params ++ [slice_1 segment])%list
       else params) l acc
  = (acc ++ map slice_1 (filter (startsWith ":") l))%list.
Proof.
  revert acc. induction l as [|x l IH]; intros acc;
    cbn [fold_left filter map].
  - now rewrite app_nil_r.
  - rewrite IH. destruct (startsWith ":" x); cbn [map]; [|reflexivity].
    now rewrite <- app_assoc.
Qed.

Lemma extractParams_filter (p : string) :
  extractParams p = map slice_1 (filter (startsWith ":") (split "/" p)).
Proof. unfold extractParams. now rewrite extractParams_fold. Qed.

Lemma startsWith_colon_cons (c : ascii) (t : string) :
  startsWith ":" (String c t) = Ascii.eqb c ":".
Proof. cbn [startsWith]. destruct t; apply andb_true_r. Qed.

Lemma split_cons (c : ascii) (t : string) :
  split "/" (String c t)
  = if Ascii.eqb c "/" then EmptyString :: split "/" t
    else match split "/" t with
         | h :: r => String c h :: r
         | [] => [String c EmptyString]
         end.
Proof. reflexivity. Qed.

Lemma colon_segments_cons (c : ascii) (t : string) :
  colon_segments (String c t)
  = (if Ascii.eqb c "/" && startsWith ":" t then 1 else 0)
    + colon_segments t.
Proof. reflexivity. Qed.

Lemma split_head (t : string) :
  exists h rest, split "/" t = h :: rest /\
                 startsWith ":" h = startsWith ":" t.
Proof.
  destruct t as [|d t].
  - now exists EmptyString, [].
  - rewrite split_cons. destruct (Ascii.eqb_spec d "/") as [->|Hd].
    + now exists EmptyString, (split "/" t).
    + destruct (split "/" t) as [|h rest].
      * exists (String d EmptyString), []. split; [reflexivity|].
        now rewrite !startsWith_colon_cons.
      * exists (String d h), rest. split; [reflexivity|].
        now rewrite !startsWith_colon_cons.
Qed.

Lemma colon_segments_split (s : string) :
  List.length (filter (startsWith ":") (split "/" s))
  = (if startsWith ":" s then 1 else 0) + colon_segments s.
Proof.
  induction s as [|c t IH]; [reflexivity|].
  destruct (split_head t) as (h & rest & Hsplit & Hh).
  rewrite Hsplit in IH. cbn [filter] in IH. rewrite Hh in IH.
  rewrite split_cons, colon_segments_cons, startsWith_colon_cons, Hsplit.
  destruct (Ascii.eqb_spec c "/") as [->|Hc].
  - cbn [filter]. change (startsWith ":" EmptyString) with false.
    cbv iota. rewrite Hh. change (Ascii.eqb "/" ":") with false.
    rewrite andb_true_l. cbv iota. rewrite IH. reflexivity.
  - cbn [filter]. rewrite startsWith_colon_cons. rewrite andb_false_l.
    destruct (Ascii.eqb c ":"), (startsWith ":" t); cbn [List.length] in *;
      lia.
Qed.

(** The number of names that [extractParams] finds in a path that starts
    with a slash: one for each [/:]. *)
Lemma extractParams_length (p : string) :
  startsWith "/" p = true ->
  List.length (extractParams p) = colon_segments p.
Proof.
  intros Hp. rewrite extractParams_filter, length_map, colon_segments_split.
  destruct p as [|c p]; [discriminate|]. cbn [startsWith] in Hp.
  apply andb_true_iff in Hp. destruct Hp as [Hc _].
  apply Ascii.eqb_eq in Hc. subst c.
  now rewrite startsWith_colon_cons.
Qed.

End ExtractParamsFacts.

Section ParserFacts.

Import RegExp.

Lemma parse_from_app (st : pstate) (a b : string) :
  parse_from st (a ++ b)
  = match parse_from st a with
    | inl st' => parse_from st' b
    | inr e => inr e
    end.
Proof.
  revert st. induction a as [|c a IH]; intros st; simpl; [reflexivity|].
  destruct (parse_step st c); [apply IH|reflexivity].
Qed.

(** A code unit that is a literal of the pattern syntax. *)
Lemma classify_simple (c : ascii) :
  simple_char c = true ->
  Ascii.eqb c "*" = false -> Ascii.eqb c "." = false ->
  classify c = TChar c.
Proof.
  unfold simple_char, classify. intros Hs Hstar Hdot. rewrite Hstar in *.
  repeat match type of Hs with
         | context [if Ascii.eqb c ?d then _ else _] =>
             destruct (Ascii.eqb c d); try discriminate
         end.
  reflexivity.
Qed.

Lemma parse_token (st : pstate) (tk : ptoken) :
  p_mode st = MNormal ->
  simple_token tk ->
  exists st',
    parse_from st (token_source tk) = inl st' /\
    extends st st' (tokens_terms (p_next st) [tk])
      (if is_pparam tk then 1 else 0).
Proof.
  intros Hmode Hsimple.
  destruct st as [stack [idx alts sq q] next mode]. simpl in Hmode. subst mode.
  destruct tk as [c|].
  - simpl in Hsimple. unfold token_source, tokens_terms, char_term.
    destruct (Ascii.eqb_spec c "*") as [->|Hstar].
    + eexists. split; [reflexivity|]. repeat split.
    + destruct (Ascii.eqb_spec c ".") as [->|Hdot].
      * eexists. split; [reflexivity|]. repeat split.
      * apply Ascii.eqb_neq in Hstar, Hdot.
        pose proof (classify_simple _ Hsimple Hstar Hdot) as Hc.
        eexists. split.
        -- simpl. unfold parse_step, normal_step. simpl. rewrite Hc.
           reflexivity.
        -- repeat split.
  - eexists. split; [reflexivity|]. repeat split.
Qed.

Lemma parse_tokens (toks : list ptoken) :
  forall st,
    p_mode st = MNormal ->
    Forall simple_token toks ->
    exists st',
      parse_from st (tokens_source toks) = inl st' /\
      extends st st' (tokens_terms (p_next st) toks) (count_params toks).
Proof.
  induction toks as [|tk toks IH]; intros st Hmode Hall.
  - exists st. split; [reflexivity|]. repeat split. exact Hmode.
  - inversion Hall as [|? ? Htk Hrest]; subst.
    destruct (parse_token st tk Hmode Htk)
      as (st1 & Hp1 & Hm1 & Hs1 & Hi1 & Ha1 & Hq1 & Hn1).
    destruct (IH st1 Hm1 Hrest)
      as (st2 & Hp2 & Hm2 & Hs2 & Hi2 & Ha2 & Hq2 & Hn2).
    exists st2. split.
    + simpl tokens_source. now rewrite parse_from_app, Hp1.
    + repeat split; try congruence.
      * rewrite Hq2, Hq1, Hn1. destruct tk as [c|]; simpl.
        -- now rewrite <- app_assoc.
        -- rewrite <- !app_assoc. simpl. reflexivity.
      * rewrite Hn2, Hn1. unfold count_params.
        destruct tk; simpl; lia.
Qed.

(** The pattern that [new RegExp] builds for a path without pattern
    syntax of its own. *)
Lemma parse_simple_source (p : string) :
  every simple_char p = true ->
  parse (regexSource p)
  = inl {| ast := mk_seq (RBol :: tokens_terms 1 (path_tokens false p)
                            ++ [REol]);
           ngroups := count_params (path_tokens false p) |}.
Proof.
  intros Hall. destruct (tokens_of_path p) as (Hsrc & Hsimple & _).
  unfold regexSource, parse. rewrite Hsrc.
  change ("^" ++ tokens_source (path_tokens false p) ++ "$")
    with (String "^" (tokens_source (path_tokens false p) ++ "$")).
  simpl parse_from.
  destruct (parse_tokens (push_term QNone RBol initial) eq_refl (Hsimple Hall))
    as (st & Hp & Hm & Hs & Hi & Ha & Hq & Hn).
  change (parse_step initial "^") with
    (@inl pstate error (push_term QNone RBol initial)).
  cbv iota. rewrite parse_from_app, Hp. simpl parse_from.
  destruct st as [stack [idx alts sq q] next mode].
  simpl in Hm, Hs, Hi, Ha, Hq, Hn. subst.
  unfold parse_step, normal_step, finish, close_frame. simpl.
  rewrite rev_app_distr, rev_involutive. simpl.
  rewrite Nat.add_1_r. reflexivity.
Qed.

End ParserFacts.

Section MatcherFacts.

Import RegExp.

Lemma substring_prefix (pre rest : string) :
  substring 0 (String.length pre) (pre ++ rest) = pre.
Proof.
  induction pre as [|c pre IH]; simpl.
  - now destruct rest.
  - now rewrite IH.
Qed.

Lemma length_set_nth (A : Type) (i : nat) (v : A) (l : list A) :
  List.length (set_nth i v l) = List.length l.
Proof.
  revert i. induction l as [|x l IH]; intros [|i]; simpl; auto.
Qed.

Lemma nth_error_set_nth_same (A : Type) (i : nat) (v : A) (l : list A) :
  i < List.length l -> nth_error (set_nth i v l) i = Some v.
Proof.
  revert i. induction l as [|x l IH]; intros [|i]; simpl; try lia; auto.
  intros Hi. apply IH. lia.
Qed.

Lemma nth_error_set_nth_other (A : Type) (i j : nat) (v : A) (l : list A) :
  i <> j -> nth_error (set_nth i v l) j = nth_error l j.
Proof.
  revert i j. induction l as [|x l IH]; intros [|i] [|j] Hij; simpl;
    try reflexivity; try lia.
  apply IH. lia.
Qed.

Lemma char_matcher_any :
  char_matcher (fun d => negb (is_line_terminator d)) (matcher RAny).
Proof.
  intros pos [|d t] caps k; simpl; [reflexivity|].
  now destruct (is_line_terminator d).
Qed.

Lemma char_matcher_class (neg : bool) (rs : list (ascii * ascii)) :
  char_matcher (fun d => xorb neg (in_ranges rs d)) (matcher (RClass neg rs)).
Proof. intros pos [|d t] caps k; reflexivity. Qed.

(** A quantified one-unit term without upper bound consumes a prefix of
    the input, of at least [min] code units that the term accepts, and
    goes on with the rest. *)
Lemma repeat_loop_chars (accepts : ascii -> bool) m (greedy : bool)
    (k : cont) :
  char_matcher accepts m ->
  forall fuel min pos s caps res,
    min <= fuel ->
    repeat_loop m [] greedy k fuel min None pos s caps = Some res ->
    exists pre rest,
      s = pre ++ rest /\
      min <= String.length pre /\
      every accepts pre = true /\
      k (pos + String.length pre) rest caps = Some res.
Proof.
  intros Hm. induction fuel as [|fuel IH]; intros min pos s caps res Hmin.
  - simpl. intros Hk. exists EmptyString, s. simpl.
    rewrite Nat.add_0_r. repeat split; trivial; lia.
  - assert (Hstep : forall res',
               m pos s caps
                 (fun pos' s' caps' =>
                    if Nat.eqb min 0 && Nat.eqb pos' pos then None
                    else repeat_loop m [] greedy k fuel (pred min)
                           (option_map pred None) pos' s' caps')
               = Some res' ->
               exists pre rest,
                 s = pre ++ rest /\ min <= String.length pre /\
                 every accepts pre = true /\
                 k (pos + String.length pre) rest caps = Some res').
    { intros res'. rewrite Hm. destruct s as [|c t]; [discriminate|].
      destruct (accepts c) eqn:Hc; [|discriminate].
      replace (Nat.eqb (S pos) pos) with false
        by (symmetry; apply Nat.eqb_neq; lia).
      rewrite andb_false_r. simpl option_map. intros Hloop.
      apply IH in Hloop; [|lia].
      destruct Hloop as (pre & rest & -> & Hlen & Hall & Hk).
      exists (String c pre), rest. simpl. rewrite Hc.
      repeat split; trivial; [lia|].
      now rewrite <- Nat.add_succ_comm. }
    simpl. destruct (Nat.eqb min 0) eqn:Hz; simpl negb; cbv iota.
    + apply Nat.eqb_eq in Hz. subst min.
      assert (Hzero : k pos s caps = Some res ->
                      exists pre rest,
                        s = pre ++ rest /\ 0 <= String.length pre /\
                        every accepts pre = true /\
                        k (pos + String.length pre) rest caps = Some res).
      { intros Hk. exists EmptyString, s. simpl. rewrite Nat.add_0_r.
        repeat split; trivial. }
      destruct greedy; unfold orelse.
      * destruct (m pos s caps _) as [x|] eqn:E.
        -- intros [= ->]. now apply Hstep.
        -- exact Hzero.
      * destruct (k pos s caps) as [x|] eqn:E.
        -- intros [= ->]. now apply Hzero.
        -- apply Hstep.
    + apply Hstep.
Qed.

Lemma every_not_slash (s : string) :
  every (fun d => xorb true (in_ranges [("/", "/")%char] d)) s = true ->
  includes "/" s = false.
Proof.
  induction s as [|c s IH]; simpl; [reflexivity|].
  intros Hall. apply andb_true_iff in Hall. destruct Hall as [Hc Hs].
  rewrite (IH Hs), orb_false_r.
  unfold in_ranges, in_range in Hc. simpl in Hc.
  destruct (Ascii.eqb_spec c "/") as [->|_]; [discriminate|reflexivity].
Qed.

Lemma mk_seq_cons (a : regex) (l : list regex) :
  mk_seq (a :: l) = RSeq a (mk_seq l).
Proof. reflexivity. Qed.

Lemma matcher_seq (a b : regex) pos s caps (k : cont) :
  matcher (RSeq a b) pos s caps k
  = matcher a pos s caps (fun pos' s' caps' => matcher b pos' s' caps' k).
Proof. reflexivity. Qed.

Lemma matcher_repeat (a : regex) min max greedy pos s caps (k : cont) :
  matcher (RRepeat a min max greedy) pos s caps k
  = repeat_loop (matcher a) (groups a) greedy k (min + String.length s)
      min max pos s caps.
Proof. reflexivity. Qed.

Lemma matcher_group (i : nat) (a : regex) pos s caps (k : cont) :
  matcher (RGroup i a) pos s caps k
  = matcher a pos s caps
      (fun pos' s' caps' =>
         k pos' s' (set_nth i (Some (substring 0 (pos' - pos) s)) caps')).
Proof. reflexivity. Qed.

Lemma matcher_char (c : ascii) pos s caps (k : cont) :
  matcher (RChar c) pos s caps k
  = match s with
    | String d t => if Ascii.eqb d c then k (S pos) t caps else None
    | EmptyString => None
    end.
Proof. reflexivity. Qed.

Lemma matcher_empty pos s caps (k : cont) :
  matcher REmpty pos s caps k = k pos s caps.
Proof. reflexivity. Qed.

Lemma count_params_char (c : ascii) (toks : list ptoken) :
  count_params (PChar c :: toks) = count_params toks.
Proof. reflexivity. Qed.

Lemma count_params_param (toks : list ptoken) :
  count_params (PParam :: toks) = S (count_params toks).
Proof. reflexivity. Qed.

(** The pattern terms of a list of tokens, run before [tail]: when the
    match succeeds, [tail] was run on captures in which the groups of the
    tokens are filled and the groups below [next] untouched. *)
Lemma terms_sound (toks : list ptoken) :
  forall next tail pos input caps (k : cont) res,
    matcher (mk_seq (tokens_terms next toks ++ tail)) pos input caps k
    = Some res ->
    exists pos' input' caps',
      matcher (mk_seq tail) pos' input' caps' k = Some res /\
      List.length caps' = List.length caps /\
      (forall i, i < next -> nth_error caps' i = nth_error caps i) /\
      (forall i, next <= i < next + count_params toks ->
                 i < List.length caps -> filled caps' i).
Proof.
  induction toks as [|tk toks IH]; intros next tail pos input caps k res.
  - cbn [tokens_terms app]. intros Hm. exists pos, input, caps.
    repeat split; trivial.
    unfold count_params. cbn [filter List.length]. intros i Hi. lia.
  - destruct tk as [c|]; cbn [tokens_terms];
      rewrite <- ?app_comm_cons, mk_seq_cons, matcher_seq.
    + (* a code unit of the path *)
      rewrite count_params_char.
      unfold char_term. destruct (Ascii.eqb c "*").
      * unfold any_star. rewrite matcher_repeat. cbn [groups].
        intros Hm.
        apply (@repeat_loop_chars _ _ true _ char_matcher_any) in Hm;
          [|lia].
        destruct Hm as (pre & rest & _ & _ & _ & Hm).
        exact (IH _ _ _ _ _ _ _ Hm).
      * destruct (Ascii.eqb c ".").
        -- rewrite char_matcher_any. destruct input as [|d t];
             [discriminate|].
           destruct (negb (is_line_terminator d)); [|discriminate].
           intros Hm. exact (IH _ _ _ _ _ _ _ Hm).
        -- rewrite matcher_char. destruct input as [|d t]; [discriminate|].
           destruct (Ascii.eqb d c); [|discriminate].
           intros Hm. exact (IH _ _ _ _ _ _ _ Hm).
    + (* a parameter *)
      rewrite count_params_param, matcher_char.
      destruct input as [|c0 t0]; [discriminate|].
      destruct (Ascii.eqb c0 "/"); [|discriminate].
      rewrite mk_seq_cons, matcher_seq. unfold param_group.
      rewrite matcher_group, matcher_seq, matcher_repeat. cbn [groups].
      intros Hm.
      apply (@repeat_loop_chars _ _ true _
               (char_matcher_class true [("/", "/")%char])) in Hm; [|lia].
      destruct Hm as (pre & rest & -> & Hlen & Hall & Hm).
      rewrite matcher_empty in Hm.
      replace (S pos + String.length pre - S pos) with (String.length pre)
        in Hm by lia.
      rewrite substring_prefix in Hm.
      apply IH in Hm.
      destruct Hm as (pos' & input' & caps' & Htail & Hl & Hlow & Hfill).
      rewrite length_set_nth in Hl, Hfill.
      exists pos', input', caps'. split; [exact Htail|].
      split; [exact Hl|]. split.
      * intros i Hi. rewrite Hlow by lia.
        apply nth_error_set_nth_other. lia.
      * intros i Hi Hic.
        destruct (Nat.eq_dec i next) as [->|Hne].
        -- exists pre. split.
           ++ rewrite Hlow by lia. now apply nth_error_set_nth_same.
           ++ split; [destruct pre; [simpl in Hlen; lia|discriminate]|].
              now apply every_not_slash.
        -- apply Hfill; [lia|exact Hic].
Qed.

End MatcherFacts.

Section SimplePathFacts.

Import RegExp.

Lemma simple_path_parts (p : string) :
  simple_path p = true ->
  startsWith "/" p = true /\ every simple_char p = true /\ colon_ok p = true.
Proof.
  unfold simple_path. intros Hp.
  apply andb_true_iff in Hp. destruct Hp as [Hp Hc].
  apply andb_true_iff in Hp. tauto.
Qed.

(** The pattern of a path without pattern syntax of its own, and its
    number of groups: the number of names that [extractParams] finds. *)
Lemma pathToRegex_simple (p : string) :
  simple_path p = true ->
  pathToRegex p
  = Returned {| ast := mk_seq (RBol :: tokens_terms 1 (path_tokens false p)
                                 ++ [REol]);
                ngroups := List.length (extractParams p) |}.
Proof.
  intros Hp. destruct (simple_path_parts _ Hp) as (Hs & Hall & Hok).
  unfold pathToRegex. rewrite (parse_simple_source _ Hall).
  destruct (tokens_of_path p) as (_ & _ & Hcount).
  now rewrite (Hcount Hok), (extractParams_length _ Hs).
Qed.

Lemma attempt_simple (toks : list ptoken) pos (s : string) e caps :
  matcher (mk_seq (RBol :: tokens_terms 1 toks ++ [REol])) pos s
    (repeat None (S (count_params toks)))
    (fun pos' _ caps' => Some (pos', caps'))
  = Some (e, caps) ->
  forall i, 1 <= i <= count_params toks -> filled caps i.
Proof.
  rewrite mk_seq_cons, matcher_seq. cbn [matcher].
  destruct (Nat.eqb pos 0); [|discriminate].
  intros Hm i Hi. apply terms_sound in Hm.
  destruct Hm as (pos' & input' & caps' & Htail & Hl & _ & Hfill).
  rewrite mk_seq_cons, matcher_seq in Htail. cbn [matcher mk_seq fold_right]
    in Htail.
  destruct input'; [|discriminate]. injection Htail as _ <-.
  apply Hfill; [lia|]. rewrite repeat_length. lia.
Qed.

Lemma exec_at_unfold (rx : RegExp.t) pos (s : string) :
  exec_at rx pos s
  = match matcher (ast rx) pos s (repeat None (S (ngroups rx)))
            (fun pos' _ caps' => Some (pos', caps')) with
    | Some (e, caps) =>
        Some (set_nth 0 (Some (substring 0 (e - pos) s)) caps)
    | None =>
        match s with
        | EmptyString => None
        | String _ t => exec_at rx (S pos) t
        end
    end.
Proof. destruct s; reflexivity. Qed.

Lemma exec_at_simple (toks : list ptoken) (s : string) :
  forall pos m,
    exec_at {| ast := mk_seq (RBol :: tokens_terms 1 toks ++ [REol]);
               ngroups := count_params toks |} pos s = Some m ->
    forall i, 1 <= i <= count_params toks -> filled m i.
Proof.
  assert (Hhere : forall pos s' e caps m i,
             matcher (mk_seq (RBol :: tokens_terms 1 toks ++ [REol])) pos s'
               (repeat None (S (count_params toks)))
               (fun pos' _ caps' => Some (pos', caps'))
             = Some (e, caps) ->
             Some (set_nth 0 (Some (substring 0 (e - pos) s')) caps)
             = Some m ->
             1 <= i <= count_params toks -> filled m i).
  { intros pos s' e caps m i Hm [= <-] Hi.
    destruct (attempt_simple _ _ _ Hm Hi) as (v & Hv & Hgood).
    exists v. split; [|exact Hgood].
    destruct i as [|i]; [lia|].
    destruct caps as [|x caps]; [discriminate Hv|exact Hv]. }
  induction s as [|c s IH]; intros pos m; rewrite exec_at_unfold;
    cbn [ast ngroups];
    destruct (matcher _ pos _ _ _) as [[e caps]|] eqn:Hm.
  - intros Hexec i Hi. eapply Hhere; eassumption.
  - discriminate.
  - intros Hexec i Hi. eapply Hhere; eassumption.
  - apply IH.
Qed.






End SimplePathFacts.

Section SimpleRouteFacts.

Variable H : Type.



End SimpleRouteFacts.




(** C9 at its failing input: for the path [/a/:/*], [extractParams] finds
    one name, the empty one, while the pattern has no group at all; the
    request [GET /a/:/x] binds the name to [undefined]. *)
Lemma params_without_group :
  extractParams (normalizePath "/a/:/*") = [EmptyString] /\
  regexSource (normalizePath "/a/:/*") = "^/a/:/.*$" /\
  (exists rx, pathToRegex (normalizePath "/a/:/*") = Returned rx /\
              RegExp.ngroups rx = 0) /\
  match_ empty_name_router "GET" "/a/:/x"
  = Some (7, [(EmptyString, VUndefined)]).
Proof.
  repeat split; try (vm_compute; reflexivity).
  eexists. split; vm_compute; reflexivity.
Qed.

(** ** More on the pipeline: order of the calls and exceptions *)

Section PipelineOrder.

Variable H : Type.
Variable World : Type.
Variable call_middleware : H -> World -> World * outcome jsval.
Variable call_param :
  H -> jsval -> string -> obj -> World -> World * obj * outcome unit.
Variable call_handler : H -> obj -> World -> World * outcome unit.
Variable res_writeHead : nat -> list (string * string) -> World -> World.
Variable res_end : string -> World -> World.

Local Abbreviation run_mws := (run_middlewares call_middleware).
Local Abbreviation run_hooks := (run_params call_param).
Local Abbreviation handle' :=
  (handle call_middleware call_param call_handler res_writeHead res_end).

Implicit Types (r : Router H) (req : Request) (w : World)
  (tr : list (event H)) (ps : obj).

(** The loop over the hooks in two parts. *)
Lemma run_params_app (before after : list (string * H)) ps w :
  run_hooks (before ++ after)%list ps w
  = match run_hooks before ps w with
    | (w1, ps1, tr1, Continue) =>
        let '(w2, ps2, tr2, f) := run_hooks after ps1 w1 in
        (w2, ps2, (tr1 ++ tr2)%list, f)
    | x => x
    end.
Proof.
  revert ps w. induction before as [|[name hk] before IH]; intros ps w.
  - cbn [app run_params].
    now destruct (run_hooks after ps w) as [[[? ?] ?] ?].
  - cbn [app run_params].
    destruct (truthy (obj_get ps name)); [|apply IH].
    destruct (call_param hk (obj_get ps name) name ps w)
      as [[w' ps'] [u| |]]; try reflexivity.
    rewrite IH.
    destruct (run_hooks before ps' w') as [[[w1 ps1] tr1] [| | |]];
      try reflexivity.
    now destruct (run_hooks after ps1 w1) as [[[? ?] ?] ?].
Qed.

(** Whatever the hooks do, the loop calls hooks only, in the order of the
    table and each entry at most once, and it is never left by
    [return]. *)
Lemma run_params_events (hooks : list (string * H)) :
  forall ps w w' ps' tr f,
    run_hooks hooks ps w = (w', ps', tr, f) ->
    forallb (@is_param_event H) tr = true /\
    subsequence (hooks_called tr) hooks /\
    f <> Return.
Proof.
  induction hooks as [|[name hk] hooks IH]; intros ps w w' ps' tr f;
    cbn [run_params].
  - intros [= <- <- <- <-].
    split; [reflexivity|]. split; [constructor|discriminate].
  - destruct (truthy (obj_get ps name)).
    + destruct (call_param hk (obj_get ps name) name ps w)
        as [[w1 ps1] [u| |]].
      * destruct (run_hooks hooks ps1 w1) as [[[w2 ps2] tr2] f2] eqn:E.
        intros [= <- <- <- <-].
        destruct (IH _ _ _ _ _ _ E) as (Hev & Hsub & Hf).
        split; [exact Hev|]. split; [|exact Hf].
        cbn [hooks_called]. now constructor.
      * intros [= <- <- <- <-]. split; [reflexivity|].
        split; [|discriminate].
        cbn [hooks_called]. repeat constructor.
      * intros [= <- <- <- <-]. split; [reflexivity|].
        split; [|discriminate].
        cbn [hooks_called]. repeat constructor.
    + intros E. destruct (IH _ _ _ _ _ _ E) as (Hev & Hsub & Hf).
      split; [exact Hev|]. split; [|exact Hf]. now constructor.
Qed.

Lemma hooks_called_app tr tr' :
  hooks_called (tr ++ tr')%list = (hooks_called tr ++ hooks_called tr')%list.
Proof.
  induction tr as [|[] tr IH]; cbn [app hooks_called]; try exact IH;
    [reflexivity|]. now rewrite IH.
Qed.

Lemma hooks_called_middleware tr :
  forallb (@is_middleware_event H) tr = true -> hooks_called tr = [].
Proof.
  induction tr as [|[] tr IH]; cbn [forallb is_middleware_event hooks_called];
    try discriminate; auto.
Qed.

(** X1: whatever the handlers do, the trace of [handle] is made of calls
    of middlewares, then calls of param hooks, then at most one of: the
    call of the route handler, or the two writes of the 404 response (and
    these only when no hook was called and [handle] returns normally).
    The hooks called are entries of the hook table, in the order of the
    table, none of them twice. *)
Theorem handle_trace_shape r req w w' tr o :
  handle' r req w = (w', tr, o) ->
  exists trm trp tail,
    tr = (trm ++ trp ++ tail)%list /\
    forallb (@is_middleware_event H) trm = true /\
    forallb (@is_param_event H) trp = true /\
    subsequence (hooks_called tr) (paramHandlers r) /\
    (tail = [] \/
     (exists h, tail = [EvHandler h]) \/
     (trp = [] /\ o = Returned tt /\
      tail = [EvWriteHead 404 not_found_headers;
              EvEnd (not_found_body (req_pathname req))])).
Proof.
  unfold handle, after_middlewares.
  destruct (run_mws 0 (middlewares r) (req_pathname req) w)
    as [[w1 tr1] f] eqn:Hm.
  assert (Hmw : forallb (@is_middleware_event H) tr1 = true).
  { eapply middleware_events_only, run_middlewares_events, Hm. }
  assert (Hquiet : forall tr2,
             tr2 = [] ->
             exists trm trp tail,
               (tr1 ++ tr2)%list = (trm ++ trp ++ tail)%list /\
               forallb (@is_middleware_event H) trm = true /\
               forallb (@is_param_event H) trp = true /\
               subsequence (hooks_called (tr1 ++ tr2)%list) (paramHandlers r) /\
               (tail = [] \/
                (exists h, tail = [EvHandler h]) \/
                (trp = [] /\ o = Returned tt /\
                 tail = [EvWriteHead 404 not_found_headers;
                         EvEnd (not_found_body (req_pathname req))]))).
  { intros tr2 ->. exists tr1, [], []. rewrite !app_nil_r.
    split; [reflexivity|]. split; [exact Hmw|]. split; [reflexivity|].
    split; [|now left].
    rewrite hooks_called_middleware by exact Hmw. constructor. }
  destruct f.
  - unfold finish_dispatch.
    destruct (match_ r (req_method req) (req_pathname req)) as [[h ps]|].
    + destruct (run_hooks (paramHandlers r) ps w1)
        as [[[w2 ps2] tr2] f2] eqn:Hp.
      destruct (run_params_events _ _ _ Hp) as (Hev & Hsub & Hf).
      destruct f2; [|contradiction| |].
      * destruct (call_handler h ps2 w2) as [w3 o3].
        intros [= <- <- <-]. exists tr1, tr2, [EvHandler h].
        split; [reflexivity|]. split; [exact Hmw|]. split; [exact Hev|].
        split.
        -- rewrite !hooks_called_app, hooks_called_middleware by exact Hmw.
           cbn [hooks_called app]. now rewrite app_nil_r.
        -- right. left. now exists h.
      * intros [= <- <- <-]. exists tr1, tr2, [].
        split; [now rewrite app_nil_r|]. split; [exact Hmw|].
        split; [exact Hev|]. split; [|now left].
        now rewrite hooks_called_app, hooks_called_middleware by exact Hmw.
      * intros [= <- <- <-]. exists tr1, tr2, [].
        split; [now rewrite app_nil_r|]. split; [exact Hmw|].
        split; [exact Hev|]. split; [|now left].
        now rewrite hooks_called_app, hooks_called_middleware by exact Hmw.
    + intros [= <- <- <-].
      exists tr1, [],
        [EvWriteHead 404 not_found_headers;
         EvEnd (not_found_body (req_pathname req))].
      split; [reflexivity|]. split; [exact Hmw|]. split; [reflexivity|].
      split.
      * rewrite hooks_called_app, hooks_called_middleware by exact Hmw.
        constructor.
      * right. right. repeat split.
  - intros [= <- <- <-]. rewrite <- (app_nil_r tr1). now apply Hquiet.
  - intros [= <- <- <-]. rewrite <- (app_nil_r tr1). now apply Hquiet.
  - intros [= <- <- <-]. rewrite <- (app_nil_r tr1). now apply Hquiet.
Qed.

(** X2: an exception thrown by a middleware is not caught: [handle] ends
    with this exception right after the call, and nothing else is called
    or written. *)
Theorem middleware_exception_propagates
    r req w before mw after w1 tr1 rx w2 e :
  middlewares r = (before ++ mw :: after)%list ->
  run_mws 0 before (req_pathname req) w = (w1, tr1, Continue) ->
  pathToRegex (normalizePath (path mw)) = Returned rx ->
  RegExp.test rx (req_pathname req) = true ->
  call_middleware (mw_handler mw) w1 = (w2, Threw e) ->
  handle' r req w
  = (w2, (tr1 ++ [EvMiddleware (List.length before) (mw_handler mw)])%list,
     Threw e).
Proof.
  intros Hm Hb Hrx Ht Hc. unfold handle.
  rewrite Hm, run_middlewares_app, Hb. cbn [Nat.add run_middlewares].
  now rewrite Hrx, Ht, Hc.
Qed.

(** X3: an exception thrown by a param hook is not caught either: the
    hooks after it and the route handler are not called. *)
Theorem param_hook_exception_skips_handler
    r req w w1 tr1 h ps before name hk after w2 ps2 tr2 w3 ps3 e :
  run_mws 0 (middlewares r) (req_pathname req) w = (w1, tr1, Continue) ->
  match_ r (req_method req) (req_pathname req) = Some (h, ps) ->
  paramHandlers r = (before ++ (name, hk) :: after)%list ->
  run_hooks before ps w1 = (w2, ps2, tr2, Continue) ->
  truthy (obj_get ps2 name) = true ->
  call_param hk (obj_get ps2 name) name ps2 w2 = (w3, ps3, Threw e) ->
  handle' r req w
  = (w3, (tr1 ++ tr2 ++ [EvParam name hk (obj_get ps2 name)])%list, Threw e).
Proof.
  intros Hm Hmatch Hhooks Hb Ht Hc.
  unfold handle, after_middlewares, finish_dispatch.
  rewrite Hm, Hmatch, Hhooks, run_params_app, Hb. cbn [run_params].
  now rewrite Ht, Hc.
Qed.

(** X4: the pattern of a middleware is compiled at each request.  When it
    is not a valid pattern, every request that reaches the middleware ends
    with the syntax error, whatever its path, before the middleware or
    anything after it is called. *)
Theorem middleware_bad_pattern_fails_requests
    r req w before mw after w1 tr1 e :
  middlewares r = (before ++ mw :: after)%list ->
  run_mws 0 before (req_pathname req) w = (w1, tr1, Continue) ->
  pathToRegex (normalizePath (path mw)) = Threw e ->
  handle' r req w = (w1, tr1, Threw e).
Proof.
  intros Hm Hb Hrx. unfold handle.
  rewrite Hm, run_middlewares_app, Hb. cbn [Nat.add run_middlewares].
  rewrite Hrx. now rewrite app_nil_r.
Qed.

End PipelineOrder.

(** ** More on the tables *)

Section TableFacts.

Variable H : Type.
Implicit Types (r : Router H) (h : H).

Lemma get_app (V : Type) (k : string) (l1 l2 : list (string * V)) :
  JsMap.get k (l1 ++ l2)%list
  = match JsMap.get k l1 with
    | Some v => Some v
    | None => JsMap.get k l2
    end.
Proof.
  induction l1 as [|[k' v'] l1 IH]; cbn [app JsMap.get]; [reflexivity|].
  now destruct (String.eqb k' k).
Qed.

Lemma scan_app methodUpper urlPath (l1 l2 : list (string * Route H)) :
  scan methodUpper urlPath (l1 ++ l2)%list
  = match scan methodUpper urlPath l1 with
    | Some x => Some x
    | None => scan methodUpper urlPath l2
    end.
Proof.
  induction l1 as [|[key route] l1 IH]; cbn [app scan]; [reflexivity|].
  destruct (negb _); [exact IH|].
  now destruct (RegExp.exec (regex route) urlPath).
Qed.

Lemma add_outcome method path h r r' o :
  add method path h r = (r', o) ->
  r' = r \/ add method path h r = (r', Returned tt).
Proof.
  unfold add. destruct (JsMap.has _ (routes r)).
  - intros [= <- _]. now left.
  - destruct (pathToRegex (normalizePath path)) as [rx| |].
    + intros [= <- <-]. now right.
    + intros [= <- _]. now left.
    + intros [= <- _]. now left.
Qed.

(** X5: a registration changes the resolution of a request that was
    resolved before in one way only: by taking the request over through
    the exact key.  In particular a route registered after a matching
    wildcard is never reached by the scan. *)
Theorem add_keeps_resolution method path h r r' o method' urlPath x :
  add method path h r = (r', o) ->
  match_ r method' urlPath = Some x ->
  match_ r' method' urlPath = Some x \/
  (route_key method (normalizePath path) = route_key method' urlPath /\
   match_ r' method' urlPath = Some (h, [])).
Proof.
  intros Hadd Hmatch.
  destruct (add_outcome _ _ _ _ Hadd) as [->|Hok]; [now left|].
  destruct (add_success _ _ _ _ Hok) as (rx & Hnone & _ & ->).
  unfold match_ in *. cbn [routes]. rewrite get_app, scan_app.
  fold (route_key method' urlPath) in *.
  destruct (JsMap.get (route_key method' urlPath) (routes r)) as [route|];
    [now left|].
  rewrite Hmatch. cbn [JsMap.get].
  destruct (String.eqb_spec (route_key method (normalizePath path))
              (route_key method' urlPath)) as [Heq|Hne].
  - right. split; [exact Heq|reflexivity].
  - now left.
Qed.

Lemma split_colon_prefix (m rest : string) :
  includes ":" m = false ->
  split ":" (m ++ ":" ++ rest) = m :: split ":" rest.
Proof.
  induction m as [|c m IH]; [reflexivity|].
  cbn [includes]. intros Hm. apply orb_false_elim in Hm.
  destruct Hm as [Hc Hm].
  change (String c m ++ ":" ++ rest) with (String c (m ++ ":" ++ rest)).
  cbn [split]. rewrite Hc, (IH Hm). reflexivity.
Qed.

Lemma key_method_route_key (m path : string) :
  includes ":" (toUpperCase m) = false ->
  key_method (route_key m path) = toUpperCase m.
Proof.
  intros Hm. unfold key_method, route_key.
  now rewrite split_colon_prefix.
Qed.

Lemma scan_In methodUpper urlPath (l : list (string * Route H)) h ps :
  scan methodUpper urlPath l = Some (h, ps) ->
  exists key route m,
    In (key, route) l /\ handler route = h /\
    key_method key = methodUpper /\
    RegExp.exec (regex route) urlPath = Some m /\
    ps = bind_params (params route) 0 m [].
Proof.
  induction l as [|[key route] l IH]; cbn [scan]; [discriminate|].
  assert (Hrest : scan methodUpper urlPath l = Some (h, ps) ->
                  exists key0 route0 m,
                    In (key0, route0) ((key, route) :: l) /\
                    handler route0 = h /\ key_method key0 = methodUpper /\
                    RegExp.exec (regex route0) urlPath = Some m /\
                    ps = bind_params (params route0) 0 m []).
  { intros Hs. destruct (IH Hs) as (k0 & r0 & m & Hin & Hrest).
    exists k0, r0, m. split; [now right|exact Hrest]. }
  destruct (String.eqb_spec (key_method key) methodUpper) as [Hk|Hk];
    cbn [negb]; [|exact Hrest].
  destruct (RegExp.exec (regex route) urlPath) as [m|] eqn:He;
    [|exact Hrest].
  intros [= <- <-]. exists key, route, m.
  split; [now left|]. auto.
Qed.

(** X6: [match] never returns a route of another method: the route it
    returns is in the table under a key whose method part is the request's
    method in upper case.  (For a method without a colon, as every HTTP
    method is.) *)
Theorem match_same_method r method urlPath h ps :
  includes ":" (toUpperCase method) = false ->
  match_ r method urlPath = Some (h, ps) ->
  exists key route,
    In (key, route) (routes r) /\ handler route = h /\
    key_method key = toUpperCase method.
Proof.
  intros Hm. unfold match_.
  destruct (JsMap.get (toUpperCase method ++ ":" ++ urlPath) (routes r))
    as [route|] eqn:Hget.
  - intros [= <- _]. exists (route_key method urlPath), route.
    split; [now apply get_In|]. split; [reflexivity|].
    now apply key_method_route_key.
  - intros Hs. destruct (scan_In _ _ _ Hs) as (key & route & m & Hin & Hh & Hk & _).
    now exists key, route.
Qed.

(** X7: the invariant of the route table is kept by every registration:
    the keys stay distinct, and every route has the parameter names and
    the pattern of the normalized path of its key. *)
Theorem add_keeps_wf_routes method path h r :
  wf_routes (routes r) ->
  wf_routes (routes (fst (add method path h r))).
Proof.
  intros [Hnd Hall].
  destruct (add method path h r) as [r' o] eqn:Hadd. cbn [fst].
  destruct (add_outcome _ _ _ _ Hadd) as [->|Hok]; [now split|].
  destruct (add_success _ _ _ _ Hok) as (rx & Hnone & Hrx & ->).
  cbn [routes]. split.
  - rewrite map_app. cbn [map fst]. apply NoDup_app; [exact Hnd| |].
    + repeat constructor. intros [].
    + intros k Hk [<-|[]]. now apply (get_None_not_In _ _ Hnone).
  - apply Forall_app. split; [exact Hall|]. repeat constructor.
    exists method, path. split; [reflexivity|]. now split.
Qed.

(** X8: one hook per name.  After [param(name, h)] the hook of [name] is
    [h] and the hooks of the other names are as before; a name already in
    the table keeps its place in the order of the calls, a new name goes
    last; the routes and the middlewares are untouched. *)
Theorem param_single_slot name h r :
  JsMap.get name (paramHandlers (param name h r)) = Some h /\
  (forall other, other <> name ->
     JsMap.get other (paramHandlers (param name h r))
     = JsMap.get other (paramHandlers r)) /\
  map fst (paramHandlers (param name h r))
  = (if JsMap.has name (paramHandlers r) then map fst (paramHandlers r)
     else (map fst (paramHandlers r) ++ [name])%list) /\
  (NoDup (map fst (paramHandlers r)) ->
   NoDup (map fst (paramHandlers (param name h r)))) /\
  routes (param name h r) = routes r /\
  middlewares (param name h r) = middlewares r.
Proof.
  cbn [param paramHandlers routes middlewares].
  split; [apply get_set_same|].
  split; [intros other Hne; apply get_set_other; congruence|].
  split; [apply keys_set|].
  split; [apply NoDup_keys_set|]. split; reflexivity.
Qed.

End TableFacts.

(** ** More on the path helpers *)

Section PathFacts.

Lemma startsWith_slash_cons (c : ascii) (t : string) :
  startsWith "/" (String c t) = Ascii.eqb c "/".
Proof. cbn [startsWith]. destruct t; apply andb_true_r. Qed.

(** X9: a leading slash is optional and one trailing slash is ignored:
    a path that neither starts nor ends with a slash has the same normal
    form as its three other spellings, namely the path after a slash. *)
Theorem normalizePath_spellings (p : string) :
  startsWith "/" p = false ->
  endsWith "/" p = false ->
  normalizePath p = "/" ++ p /\
  normalizePath ("/" ++ p) = "/" ++ p /\
  normalizePath (p ++ "/") = "/" ++ p /\
  normalizePath ("/" ++ p ++ "/") = "/" ++ p.
Proof.
  intros Hs He.
  change ("/" ++ p ++ "/") with (String "/" (p ++ "/")).
  change ("/" ++ p) with (String "/" p).
  assert (Hlead : normalizePath (String "/" p) = String "/" p).
  { rewrite normalizePath_steps, lead_slash.
    destruct (snoc_view p) as [->|(t & c & ->)]; [reflexivity|].
    rewrite endsWith_snoc in He.
    now rewrite remove_trailing_slash_snoc, He. }
  assert (Htrail : normalizePath (String "/" (p ++ "/")) = String "/" p).
  { rewrite normalizePath_steps, lead_slash.
    now rewrite remove_trailing_slash_snoc. }
  split; [|split; [exact Hlead|split; [|exact Htrail]]].
  - etransitivity; [|exact Hlead]. rewrite !normalizePath_steps.
    unfold ensure_leading_slash at 1. now rewrite Hs.
  - etransitivity; [|exact Htrail]. rewrite !normalizePath_steps.
    destruct p as [|c p]; [reflexivity|].
    unfold ensure_leading_slash at 1.
    change (String c p ++ "/") with (String c (p ++ "/")).
    rewrite startsWith_slash_cons in *. now rewrite Hs.
Qed.

Lemma normalizePath_spellings_witness :
  normalizePath "users" = "/users" /\
  normalizePath "/users" = "/users" /\
  normalizePath "users/" = "/users" /\
  normalizePath "/users/" = "/users".
Proof.
  exact (@normalizePath_spellings "users" eq_refl eq_refl).
Defined.

Lemma replaceParams_no_colon (p : string) :
  includes ":" p = false -> forall skip, skip = false ->
  replaceParams_from skip p = p.
Proof.
  induction p as [|c t IH]; [reflexivity|].
  cbn [includes]. intros Hp skip ->. apply orb_false_elim in Hp.
  destruct Hp as [Hc Ht]. cbn [replaceParams_from andb].
  destruct t as [|c1 [|c2 t']].
  - reflexivity.
  - now rewrite (IH Ht false eq_refl).
  - cbn [includes] in Ht. apply orb_false_elim in Ht.
    destruct Ht as [Hc1 Ht']. rewrite Hc1, andb_false_r. cbn [andb].
    rewrite (IH (proj2 (orb_false_iff _ _) (conj Hc1 Ht')) false eq_refl).
    reflexivity.
Qed.

Lemma replaceStars_no_star (p : string) :
  includes "*" p = false -> replaceStars p = p.
Proof.
  induction p as [|c t IH]; [reflexivity|].
  cbn [includes replaceStars]. intros Hp. apply orb_false_elim in Hp.
  destruct Hp as [Hc Ht]. now rewrite Hc, (IH Ht).
Qed.

(** X10: the text of the pattern is the path itself between [^] and [$]
    when the path has no colon and no star: no code unit is escaped, so
    whatever pattern syntax the path holds is pattern syntax of the
    route. *)
Theorem regexSource_verbatim (p : string) :
  includes ":" p = false ->
  includes "*" p = false ->
  regexSource p = "^" ++ p ++ "$".
Proof.
  intros Hc Hs. unfold regexSource, replaceParams.
  now rewrite (replaceParams_no_colon _ Hc eq_refl), (replaceStars_no_star _ Hs).
Qed.

Lemma regexSource_verbatim_witness :
  regexSource "/file.(txt|md)" = "^/file.(txt|md)$".
Proof.
  exact (@regexSource_verbatim "/file.(txt|md)" eq_refl eq_refl).
Defined.

Lemma split_no_sep (s : string) :
  Forall (fun seg => includes "/" seg = false) (split "/" s).
Proof.
  induction s as [|c t IH]; [repeat constructor|].
  rewrite split_cons. destruct (Ascii.eqb c "/") eqn:Hc.
  - now constructor.
  - destruct (split "/" t) as [|h rest].
    + repeat constructor. cbn [includes]. now rewrite Hc.
    + inversion IH as [|? ? Hh Hrest]; subst. constructor; [|exact Hrest].
      cbn [includes]. now rewrite Hc, Hh.
Qed.

Lemma includes_slice_1 (c : ascii) (s : string) :
  includes c s = false -> includes c (slice_1 s) = false.
Proof.
  destruct s as [|d t]; [reflexivity|]. cbn [includes slice_1].
  intros Hs. now apply orb_false_elim in Hs.
Qed.

(** X11: [extractParams] gives one name for each segment that starts with
    a colon, so, for a path that starts with a slash, one name for each
    [/:] of the path; and no name holds a slash. *)
Theorem extractParams_names (p : string) :
  Forall (fun name => includes "/" name = false) (extractParams p) /\
  (startsWith "/" p = true ->
   List.length (extractParams p) = colon_segments p).
Proof.
  split; [|apply extractParams_length].
  rewrite extractParams_filter.
  pose proof (split_no_sep p) as Hall.
  induction Hall as [|seg l Hseg _ IH]; cbn [filter map]; [constructor|].
  destruct (startsWith ":" seg); cbn [map]; [|exact IH].
  constructor; [now apply includes_slice_1|exact IH].
Qed.

Lemma upper_char_idempotent (c : ascii) :
  upper_char (upper_char c) = upper_char c.
Proof.
  destruct c as [[] [] [] [] [] [] [] []]; vm_compute; reflexivity.
Qed.

Lemma toUpperCase_idempotent (s : string) :
  toUpperCase (toUpperCase s) = toUpperCase s.
Proof.
  induction s as [|c s IH]; [reflexivity|].
  cbn [toUpperCase]. now rewrite upper_char_idempotent, IH.
Qed.

End PathFacts.

(** X12: the letter case of the method never matters: registering and
    resolving under a method or under its upper-case form give the same
    router and the same result. *)
Theorem method_case_insensitive (H : Type) (r : Router H)
    (method path urlPath : string) (h : H) :
  fst (add (toUpperCase method) path h r) = fst (add method path h r) /\
  match_ r (toUpperCase method) urlPath = match_ r method urlPath.
Proof.
  unfold add, match_, route_key. rewrite !toUpperCase_idempotent.
  split; [|reflexivity].
  destruct (JsMap.has _ (routes r)); [reflexivity|].
  now destruct (pathToRegex (normalizePath path)).
Qed.

(** ** More on the compiled patterns *)

Section PatternFacts.

Import RegExp.

Lemma attempt_simple_length (toks : list ptoken) pos (s : string) e caps :
  matcher (mk_seq (RBol :: tokens_terms 1 toks ++ [REol])) pos s
    (repeat None (S (count_params toks)))
    (fun pos' _ caps' => Some (pos', caps'))
  = Some (e, caps) ->
  List.length caps = S (count_params toks).
Proof.
  rewrite mk_seq_cons, matcher_seq. cbn [matcher].
  destruct (Nat.eqb pos 0); [|discriminate].
  intros Hm. apply terms_sound in Hm.
  destruct Hm as (pos' & input' & caps' & Htail & Hl & _).
  rewrite mk_seq_cons, matcher_seq in Htail.
  cbn [matcher mk_seq fold_right] in Htail.
  destruct input'; [|discriminate]. injection Htail as _ <-.
  now rewrite Hl, repeat_length.
Qed.

Lemma exec_at_simple_length (toks : list ptoken) (s : string) :
  forall pos m,
    exec_at {| ast := mk_seq (RBol :: tokens_terms 1 toks ++ [REol]);
               ngroups := count_params toks |} pos s = Some m ->
    List.length m = S (count_params toks).
Proof.
  induction s as [|c s IH]; intros pos m; rewrite exec_at_unfold;
    cbn [ast ngroups];
    destruct (matcher _ pos _ _ _) as [[e caps]|] eqn:Hm.
  - intros Heq.
    match type of Heq with
    | Some ?x = Some _ => assert (Hx : m = x) by congruence; rewrite Hx
    end.
    rewrite length_set_nth. eapply attempt_simple_length, Hm.
  - discriminate.
  - intros Heq.
    match type of Heq with
    | Some ?x = Some _ => assert (Hx : m = x) by congruence; rewrite Hx
    end.
    rewrite length_set_nth. eapply attempt_simple_length, Hm.
  - apply IH.
Qed.

(** X13: for a path without pattern syntax of its own, [pathToRegex]
    succeeds and the pattern has as many groups as [extractParams] finds
    names; a match has one capture for each name, in the same order, and
    every one of them is defined. *)
Theorem simple_path_groups_are_names (p : string) :
  simple_path p = true ->
  exists rx,
    pathToRegex p = Returned rx /\
    ngroups rx = List.length (extractParams p) /\
    forall s m,
      exec rx s = Some m ->
      List.length m = S (List.length (extractParams p)) /\
      forall i, i < List.length (extractParams p) ->
                exists v, nth_error m (S i) = Some (Some v).
Proof.
  intros Hp. eexists. split; [apply (pathToRegex_simple _ Hp)|].
  split; [reflexivity|]. intros s m Hexec.
  destruct (simple_path_parts _ Hp) as (Hs & Hall & Hok).
  destruct (tokens_of_path p) as (_ & _ & Hcount).
  rewrite <- (extractParams_length _ Hs), <- (Hcount Hok) in *.
  split; [exact (exec_at_simple_length _ _ _ Hexec)|].
  intros i Hi.
  destruct (exec_at_simple _ _ _ Hexec (i := S i)) as (v & Hv & _); [lia|].
  now exists v.
Qed.

Lemma simple_path_groups_are_names_witness :
  exists rx,
    pathToRegex "/a/:x/b/:y" = Returned rx /\
    ngroups rx = 2 /\
    forall s m,
      exec rx s = Some m ->
      List.length m = 3 /\
      forall i, i < 2 -> exists v, nth_error m (S i) = Some (Some v).
Proof.
  assert (Hp : simple_path "/a/:x/b/:y" = true) by (vm_compute; reflexivity).
  exact (@simple_path_groups_are_names "/a/:x/b/:y" Hp).
Defined.

(** *** The pattern of [/*] *)

Lemma repeat_loop_star_step m (k : cont) fuel pos (s : string) caps :
  repeat_loop m [] true k (S fuel) 0 None pos s caps
  = orelse
      (m pos s caps
         (fun pos' s' caps' =>
            if Nat.eqb pos' pos then None
            else repeat_loop m [] true k fuel 0 None pos' s' caps'))
      (k pos s caps).
Proof. reflexivity. Qed.

Lemma repeat_any_all (t : string) :
  every not_line_terminator t = true ->
  forall fuel pos caps (k : cont) res,
    String.length t <= fuel ->
    k (pos + String.length t) EmptyString caps = Some res ->
    repeat_loop (matcher RAny) [] true k fuel 0 None pos t caps = Some res.
Proof.
  induction t as [|c t IH]; intros Hall fuel pos caps k res Hfuel Hk.
  - cbn [String.length] in Hk. rewrite Nat.add_0_r in Hk.
    destruct fuel; [exact Hk|].
    rewrite repeat_loop_star_step, char_matcher_any. exact Hk.
  - cbn [every] in Hall. apply andb_true_iff in Hall.
    destruct Hall as [Hc Ht]. unfold not_line_terminator in Hc.
    destruct fuel as [|fuel]; [cbn [String.length] in Hfuel; lia|].
    rewrite repeat_loop_star_step, char_matcher_any, Hc.
    replace (Nat.eqb (S pos) pos) with false
      by (symmetry; apply Nat.eqb_neq; lia).
    rewrite (IH Ht fuel (S pos) caps k res); [reflexivity| |].
    + cbn [String.length] in Hfuel. lia.
    + cbn [String.length] in Hk. now rewrite Nat.add_succ_comm.
Qed.

Lemma exec_at_bol_later (body : regex) (n : nat) (s : string) :
  forall pos, 1 <= pos ->
    exec_at {| ast := RSeq RBol body; ngroups := n |} pos s = None.
Proof.
  induction s as [|c s IH]; intros pos Hpos; rewrite exec_at_unfold;
    cbn [ast ngroups matcher];
    (replace (Nat.eqb pos 0) with false
       by (symmetry; apply Nat.eqb_neq; lia)); [reflexivity|].
  apply IH. lia.
Qed.

Lemma exec_bol (body : regex) (n : nat) (s : string) :
  exec {| ast := RSeq RBol body; ngroups := n |} s
  = match matcher body 0 s (repeat None (S n))
            (fun pos' _ caps' => Some (pos', caps')) with
    | Some (e, caps) => Some (set_nth 0 (Some (substring 0 (e - 0) s)) caps)
    | None => None
    end.
Proof.
  unfold exec. rewrite exec_at_unfold. cbn [ast ngroups matcher Nat.eqb].
  destruct (matcher body 0 s _ _) as [[e caps]|]; [reflexivity|].
  destruct s; [reflexivity|]. now apply exec_at_bol_later.
Qed.

(** The pattern of the path [/*] accepts exactly the texts that start
    with a slash and hold no line terminator after it. *)
Lemma star_pattern_accepts (s : string) :
  test {| ast := mk_seq [RBol; RChar "/"; any_star; REol]; ngroups := 0 |} s
  = true
  <-> exists t, s = String "/" t /\ every not_line_terminator t = true.
Proof.
  unfold test. rewrite mk_seq_cons, exec_bol.
  rewrite mk_seq_cons, matcher_seq, matcher_char.
  split.
  - destruct s as [|c t]; [discriminate|].
    destruct (Ascii.eqb_spec c "/") as [->|_]; [|discriminate].
    rewrite mk_seq_cons, matcher_seq. unfold any_star.
    rewrite matcher_repeat. cbn [groups].
    destruct (repeat_loop _ _ _ _ _ _ _ _ _ _) as [[e caps]|] eqn:Hm;
      [|discriminate].
    intros _. exists t. split; [reflexivity|].
    apply (@repeat_loop_chars _ _ true _ char_matcher_any) in Hm; [|lia].
    destruct Hm as (pre & rest & -> & _ & Hall & Hk).
    cbn [mk_seq fold_right matcher] in Hk.
    destruct rest; [|discriminate]. now rewrite append_nil_r.
  - intros (t & -> & Hall). rewrite Ascii.eqb_refl.
    rewrite mk_seq_cons, matcher_seq. unfold any_star.
    rewrite matcher_repeat. cbn [groups].
    rewrite (@repeat_any_all t Hall _ _ _ _ (1 + String.length t, [None]));
      [reflexivity|lia|reflexivity].
Qed.

End PatternFacts.

Section LiteralFacts.

Import RegExp.

Lemma literal_char_parts (c : ascii) :
  literal_char c = true ->
  simple_char c = true /\ Ascii.eqb c "*" = false /\
  Ascii.eqb c "." = false /\ Ascii.eqb c ":" = false.
Proof.
  unfold literal_char. intros Hc.
  repeat (apply andb_true_iff in Hc; destruct Hc as [Hc ?]).
  repeat split; trivial; now apply negb_true_iff.
Qed.

Lemma path_tokens_literal (p : string) :
  every literal_char p = true -> path_tokens false p = literal_tokens p.
Proof.
  induction p as [|c t IH]; [reflexivity|].
  cbn [every]. intros Hp. apply andb_true_iff in Hp. destruct Hp as [Hc Ht].
  cbn [path_tokens literal_tokens andb]. rewrite <- (IH Ht).
  destruct t as [|c1 [|c2 t']]; try reflexivity.
  cbn [every] in Ht. apply andb_true_iff in Ht. destruct Ht as [Hc1 _].
  destruct (literal_char_parts _ Hc1) as (_ & _ & _ & Hcolon).
  now rewrite Hcolon, andb_false_r.
Qed.

Lemma tokens_terms_literal (p : string) (next : nat) :
  every literal_char p = true ->
  tokens_terms next (literal_tokens p) = literal_terms p /\
  count_params (literal_tokens p) = 0 /\
  every simple_char p = true.
Proof.
  induction p as [|c t IH]; [repeat split|].
  cbn [every]. intros Hp. apply andb_true_iff in Hp. destruct Hp as [Hc Ht].
  destruct (IH Ht) as (Hterms & Hcount & Hsimple).
  destruct (literal_char_parts _ Hc) as (Hs & Hstar & Hdot & _).
  cbn [literal_tokens tokens_terms literal_terms].
  rewrite count_params_char, Hterms, Hs, Hsimple.
  unfold char_term. rewrite Hstar, Hdot. repeat split. exact Hcount.
Qed.

Lemma matcher_literal (p : string) :
  forall tail pos s caps (k : cont),
    matcher (mk_seq (literal_terms p ++ tail)) pos s caps k
    = match strip_prefix p s with
      | Some rest =>
          matcher (mk_seq tail) (pos + String.length p) rest caps k
      | None => None
      end.
Proof.
  induction p as [|c p IH]; intros tail pos s caps k.
  - cbn [literal_terms app strip_prefix String.length].
    now rewrite Nat.add_0_r.
  - cbn [literal_terms app]. rewrite mk_seq_cons, matcher_seq, matcher_char.
    destruct s as [|d s]; [reflexivity|]. cbn [strip_prefix String.length].
    destruct (Ascii.eqb d c); [|reflexivity].
    now rewrite IH, Nat.add_succ_comm.
Qed.

Lemma strip_prefix_all (p s : string) :
  strip_prefix p s = Some EmptyString <-> s = p.
Proof.
  revert s. induction p as [|c p IH]; intros s.
  - cbn [strip_prefix]. split; congruence.
  - destruct s as [|d s]; cbn [strip_prefix]; [split; discriminate|].
    destruct (Ascii.eqb_spec d c) as [->|Hne].
    + rewrite IH. split; congruence.
    + split; [discriminate|congruence].
Qed.

Lemma substring_all (p : string) : substring 0 (String.length p) p = p.
Proof.
  rewrite <- (append_nil_r p) at 2. apply substring_prefix.
Qed.

(** X15: a route whose path holds literal code units only (no parameter
    and none of the characters of the pattern syntax) compiles to a
    pattern that accepts its own path and nothing else, with no
    capture. *)
Theorem literal_path_matches_itself (p : string) :
  every literal_char p = true ->
  exists rx,
    pathToRegex p = Returned rx /\
    forall s, exec rx s = if String.eqb s p then Some [Some p] else None.
Proof.
  intros Hp. destruct (@tokens_terms_literal p 1 Hp) as (Hterms & Hcount & Hs).
  eexists. split.
  - unfold pathToRegex. rewrite (parse_simple_source _ Hs). reflexivity.
  - intros s. rewrite (@path_tokens_literal p Hp), Hterms, Hcount.
    rewrite mk_seq_cons, exec_bol, matcher_literal.
    destruct (String.eqb_spec s p) as [->|Hne].
    + rewrite (proj2 (strip_prefix_all p p) eq_refl).
      cbn [mk_seq fold_right matcher Nat.add Nat.sub].
      rewrite Nat.sub_0_r, substring_all. reflexivity.
    + destruct (strip_prefix p s) as [rest|] eqn:Hstrip; [|reflexivity].
      cbn [mk_seq fold_right matcher].
      destruct rest; [|reflexivity].
      apply strip_prefix_all in Hstrip. contradiction.
Qed.

Lemma literal_path_matches_itself_witness :
  exists rx,
    pathToRegex "/api/health" = Returned rx /\
    forall s,
      exec rx s
      = if String.eqb s "/api/health" then Some [Some "/api/health"]
        else None.
Proof.
  assert (Hp : every literal_char "/api/health" = true)
    by (vm_compute; reflexivity).
  exact (@literal_path_matches_itself "/api/health" Hp).
Defined.

End LiteralFacts.

Section UseFacts.

Variable H : Type.
Variable World : Type.
Variable call_middleware : H -> World -> World * outcome jsval.

Local Abbreviation run_mws := (run_middlewares call_middleware).

Lemma pathToRegex_star :
  pathToRegex (normalizePath "/*")
  = Returned {| RegExp.ast :=
                  RegExp.mk_seq [RegExp.RBol; RegExp.RChar "/"; any_star;
                                 RegExp.REol];
                RegExp.ngroups := 0 |}.
Proof. vm_compute. reflexivity. Qed.

(** X14: [use(fn)] adds one middleware, for the pattern [/*], whatever
    further handlers are passed with it; it is called, after the earlier
    middlewares have let the request through, on every request whose path
    starts with a slash and holds no line terminator, and on no other
    request. *)
Theorem use_function_runs_everywhere (r : Router H) (h : H) (hs : list H)
    (pathname : string) (w w1 : World) (tr1 : list (event H)) :
  run_mws 0 (middlewares r) pathname w = (w1, tr1, Continue) ->
  middlewares (use (inl h) hs r)
  = (middlewares r ++ [{| path := "/*"; mw_handler := h |}])%list /\
  ((exists t, pathname = String "/" t /\
              every not_line_terminator t = true) ->
   exists w2 f,
     run_mws 0 (middlewares (use (inl h) hs r)) pathname w
     = (w2, (tr1 ++ [EvMiddleware (List.length (middlewares r)) h])%list, f)) /\
  (~ (exists t, pathname = String "/" t /\
                every not_line_terminator t = true) ->
   run_mws 0 (middlewares (use (inl h) hs r)) pathname w
   = (w1, tr1, Continue)).
Proof.
  intros Hb. split; [reflexivity|].
  cbn [use middlewares]. rewrite run_middlewares_app, Hb.
  cbn [Nat.add run_middlewares mw_handler path].
  rewrite pathToRegex_star. split.
  - intros Hacc. apply star_pattern_accepts in Hacc. rewrite Hacc.
    destruct (call_middleware h w1) as [w2 [v| |]].
    + destruct (is_false v); eauto.
    + eauto.
    + eauto.
  - intros Hrej.
    destruct (RegExp.test _ pathname) eqn:Ht.
    + apply star_pattern_accepts in Ht. contradiction.
    + now rewrite app_nil_r.
Qed.

End UseFacts.

Lemma handle_trace_shape_witness :
  exists trm trp tail,
    [EvMiddleware 0 1; EvParam "id" 8 (VString "42"); EvHandler 7]
    = (trm ++ trp ++ tail)%list /\
    forallb (@is_middleware_event nat) trm = true /\
    forallb (@is_param_event nat) trp = true /\
    subsequence
      (hooks_called
         [EvMiddleware 0 1; EvParam "id" 8 (VString "42"); EvHandler 7])
      (paramHandlers users_router) /\
    (tail = [] \/
     (exists h, tail = [EvHandler h]) \/
     (trp = [] /\ Returned tt = Returned tt /\
      tail = [EvWriteHead 404 not_found_headers;
              EvEnd (not_found_body "/users/42")])).
Proof.
  assert (Hh : handle demo_middleware demo_param demo_handler demo_writeHead
                 demo_end users_router
                 {| req_method := "GET"; req_pathname := "/users/42" |} []
               = ([1; 8; 7],
                  [EvMiddleware 0 1; EvParam "id" 8 (VString "42");
                   EvHandler 7],
                  Returned tt)) by (vm_compute; reflexivity).
  exact (@handle_trace_shape nat (list nat) demo_middleware demo_param
           demo_handler demo_writeHead demo_end users_router
           {| req_method := "GET"; req_pathname := "/users/42" |} []
           _ _ _ Hh).
Defined.

Lemma middleware_exception_propagates_witness :
  faulty_handle throwing_router
    {| req_method := "GET"; req_pathname := "/users" |} []
  = ([1; 100], [EvMiddleware 0 1; EvMiddleware 1 100], Threw (Error "boom")).
Proof.
  assert (Hrx : exists rx, pathToRegex (normalizePath "/*") = Returned rx
                           /\ RegExp.test rx "/users" = true).
  { eexists. split; vm_compute; reflexivity. }
  destruct Hrx as (rx & Hrx & Ht).
  assert (Hm : middlewares throwing_router
               = ([{| path := "/*"; mw_handler := 1 |}]
                  ++ {| path := "/*"; mw_handler := 100 |}
                  :: [{| path := "/*"; mw_handler := 2 |}])%list)
    by (vm_compute; reflexivity).
  assert (Hb : run_middlewares faulty_middleware 0
                 [{| path := "/*"; mw_handler := 1 |}] "/users" []
               = ([1], [EvMiddleware 0 1], Continue))
    by (vm_compute; reflexivity).
  assert (Hc : faulty_middleware 100 [1] = ([1; 100], Threw (Error "boom")))
    by (vm_compute; reflexivity).
  exact (@middleware_exception_propagates nat (list nat) faulty_middleware
           faulty_param demo_handler demo_writeHead demo_end throwing_router
           {| req_method := "GET"; req_pathname := "/users" |} []
           [{| path := "/*"; mw_handler := 1 |}]
           {| path := "/*"; mw_handler := 100 |}
           [{| path := "/*"; mw_handler := 2 |}]
           [1] [EvMiddleware 0 1] rx [1; 100] (Error "boom")
           Hm Hb Hrx Ht Hc).
Defined.

Lemma param_hook_exception_skips_handler_witness :
  faulty_handle hook_throw_router
    {| req_method := "GET"; req_pathname := "/users/42" |} []
  = ([1; 100], [EvMiddleware 0 1; EvParam "id" 100 (VString "42")],
     Threw (Error "boom")).
Proof.
  assert (Hm : run_middlewares faulty_middleware 0
                 (middlewares hook_throw_router) "/users/42" []
               = ([1], [EvMiddleware 0 1], Continue))
    by (vm_compute; reflexivity).
  assert (Hmatch : match_ hook_throw_router "GET" "/users/42"
                   = Some (7, [("id", VString "42")]))
    by (vm_compute; reflexivity).
  assert (Hhooks : paramHandlers hook_throw_router
                   = ([("other", 9)] ++ ("id", 100) :: [("id2", 10)])%list)
    by (vm_compute; reflexivity).
  assert (Hb : run_params faulty_param [("other", 9)]
                 [("id", VString "42")] [1]
               = ([1], [("id", VString "42")], [], Continue))
    by (vm_compute; reflexivity).
  assert (Ht : truthy (obj_get [("id", VString "42")] "id") = true)
    by (vm_compute; reflexivity).
  assert (Hc : faulty_param 100 (obj_get [("id", VString "42")] "id") "id"
                 [("id", VString "42")] [1]
               = ([1; 100], [("id", VString "42")], Threw (Error "boom")))
    by (vm_compute; reflexivity).
  exact (@param_hook_exception_skips_handler nat (list nat) faulty_middleware
           faulty_param demo_handler demo_writeHead demo_end hook_throw_router
           {| req_method := "GET"; req_pathname := "/users/42" |} []
           [1] [EvMiddleware 0 1] 7 [("id", VString "42")]
           [("other", 9)] "id" 100 [("id2", 10)]
           [1] [("id", VString "42")] [] [1; 100] [("id", VString "42")]
           (Error "boom") Hm Hmatch Hhooks Hb Ht Hc).
Defined.

Lemma middleware_bad_pattern_fails_requests_witness :
  demo_handle bad_pattern_router
    {| req_method := "GET"; req_pathname := "/users" |} []
  = ([1], [EvMiddleware 0 1], Threw (RegExpSyntaxError "^/($")).
Proof.
  assert (Hm : middlewares bad_pattern_router
               = ([{| path := "/*"; mw_handler := 1 |}]
                  ++ {| path := "/("; mw_handler := 5 |} :: [])%list)
    by (vm_compute; reflexivity).
  assert (Hb : run_middlewares demo_middleware 0
                 [{| path := "/*"; mw_handler := 1 |}] "/users" []
               = ([1], [EvMiddleware 0 1], Continue))
    by (vm_compute; reflexivity).
  assert (Hrx : pathToRegex (normalizePath "/(")
                = Threw (RegExpSyntaxError "^/($"))
    by (vm_compute; reflexivity).
  exact (@middleware_bad_pattern_fails_requests nat (list nat) demo_middleware
           demo_param demo_handler demo_writeHead demo_end bad_pattern_router
           {| req_method := "GET"; req_pathname := "/users" |} []
           [{| path := "/*"; mw_handler := 1 |}]
           {| path := "/("; mw_handler := 5 |} []
           [1] [EvMiddleware 0 1] (RegExpSyntaxError "^/($") Hm Hb Hrx).
Defined.

Lemma add_keeps_resolution_witness :
  match_ wildcard_only "GET" "/users/42" = Some (1, []) /\
  (match_ wildcard_first "GET" "/users/42" = Some (1, []) \/
   (route_key "GET" (normalizePath "/users/:id") = route_key "GET" "/users/42"
    /\ match_ wildcard_first "GET" "/users/42" = Some (2, []))).
Proof.
  assert (Hadd : add "GET" "/users/:id" 2 wildcard_only
                 = (wildcard_first, Returned tt)) by (vm_compute; reflexivity).
  assert (Hmatch : match_ wildcard_only "GET" "/users/42" = Some (1, []))
    by (vm_compute; reflexivity).
  split; [exact Hmatch|].
  exact (@add_keeps_resolution nat "GET" "/users/:id" 2 wildcard_only
           wildcard_first (Returned tt) "GET" "/users/42" (1, []) Hadd Hmatch).
Defined.

Lemma match_same_method_witness :
  match_ wildcard_first "get" "/users/42" = Some (1, []) /\
  exists key route,
    In (key, route) (routes wildcard_first) /\ handler route = 1 /\
    key_method key = toUpperCase "get".
Proof.
  assert (Hm : includes ":" (toUpperCase "get") = false)
    by (vm_compute; reflexivity).
  assert (Hmatch : match_ wildcard_first "get" "/users/42" = Some (1, []))
    by (vm_compute; reflexivity).
  split; [exact Hmatch|].
  exact (@match_same_method nat wildcard_first "get" "/users/42" 1 [] Hm Hmatch).
Defined.

Lemma add_keeps_wf_routes_witness :
  wf_routes (routes (fst (add "GET" "/users/:id" 7 (@empty nat)))).
Proof.
  apply (@add_keeps_wf_routes nat "GET" "/users/:id" 7 empty).
  split; constructor.
Defined.

Lemma use_function_runs_everywhere_witness :
  exists w2 f,
    run_middlewares demo_middleware 0
      (middlewares (use (inl 1) [2; 3] (@empty nat))) "/any/path" []
    = (w2, ([] ++ [EvMiddleware (List.length (middlewares (@empty nat))) 1])%list,
       f).
Proof.
  assert (Hb : run_middlewares demo_middleware 0 (middlewares (@empty nat))
                 "/any/path" []
               = ([], [], Continue)) by (vm_compute; reflexivity).
  destruct (@use_function_runs_everywhere nat (list nat) demo_middleware
              empty 1 [2; 3] "/any/path" [] [] [] Hb) as (_ & Hrun & _).
  apply Hrun. exists "any/path". split; vm_compute; reflexivity.
Defined.


(** ** Route templates and the requests that fill them *)

Section TemplateFacts.

Import RegExp.

Lemma segment_char_parts (c : ascii) :
segment_char c = true ->
literal_char c = true /\ Ascii.eqb c "/" = false /\
Ascii.eqb c ":" = false.
Proof.
unfold segment_char. intros Hc. apply andb_true_iff in Hc.
destruct Hc as [Hl Hs]. apply negb_true_iff in Hs.
destruct (literal_char_parts _ Hl) as (_ & _ & _ & Hcolon). auto.
Qed.

Lemma word_parts (c : ascii) :
is_word c = true ->
simple_char c = true /\ Ascii.eqb c "/" = false /\
Ascii.eqb c ":" = false.
Proof.
destruct c as [[] [] [] [] [] [] [] []]; vm_compute; intros Hw;
  try discriminate Hw; repeat split.
Qed.

Lemma every_app (f : ascii -> bool) (a b : string) :
every f (a ++ b) = every f a && every f b.
Proof.
induction a as [|c a IH]; [reflexivity|].
change (String c a ++ b) with (String c (a ++ b)).
cbn [every]. now rewrite IH, andb_assoc.
Qed.

Lemma every_impl (f g : ascii -> bool) (s : string) :
(forall c, f c = true -> g c = true) ->
every f s = true -> every g s = true.
Proof.
intros Hfg. induction s as [|c s IH]; [reflexivity|].
cbn [every]. intros Hs. apply andb_true_iff in Hs.
destruct Hs as [Hc Hs]. now rewrite (Hfg _ Hc), (IH Hs).
Qed.

Lemma every_no_sep (f : ascii -> bool) (sep : ascii) (s : string) :
(forall c, f c = true -> Ascii.eqb c sep = false) ->
every f s = true -> includes sep s = false.
Proof.
intros Hf. induction s as [|c s IH]; [reflexivity|].
cbn [every includes]. intros Hs. apply andb_true_iff in Hs.
destruct Hs as [Hc Hs]. now rewrite (Hf _ Hc), (IH Hs).
Qed.

Lemma no_slash_every (s : string) :
includes "/" s = false -> every not_slash s = true.
Proof.
induction s as [|c s IH]; [reflexivity|].
cbn [includes every]. intros Hs. apply orb_false_elim in Hs.
destruct Hs as [Hc Hs]. rewrite (IH Hs), andb_true_r.
unfold not_slash, in_ranges, in_range. cbn [existsb fst snd].
rewrite orb_false_r.
destruct (Ascii.eqb_spec c "/") as [->|Hne]; [discriminate|].
destruct ((code "/" <=? code c)%N && (code c <=? code "/")%N) eqn:Hr;
  [|reflexivity].
apply andb_true_iff in Hr. destruct Hr as [Hlo Hhi].
apply N.leb_le in Hlo, Hhi. exfalso. apply Hne.
assert (Hcode : code c = code "/") by lia.
unfold code in Hcode.
now rewrite <- (ascii_N_embedding c), Hcode, ascii_N_embedding.
Qed.

(** *** The shape of the paths *)

Lemma template_path_boundary (segs : list segment) :
at_boundary (template_path segs).
Proof.
destruct segs as [|[t|n] rest]; [now left| |]; right; eexists; reflexivity.
Qed.

Lemma instantiate_boundary (segs : list segment) (vals : list string) :
at_boundary (instantiate segs vals).
Proof.
destruct segs as [|[t|n] rest]; [now left| |]; right; eexists; reflexivity.
Qed.

Lemma literal_then_boundary (t s : string) :
every segment_char t = true -> at_boundary s ->
startsWith ":" (t ++ s) = false.
Proof.
intros Ht Hs. destruct t as [|c t].
- destruct Hs as [->|(u & ->)]; reflexivity.
- change (String c t ++ s) with (String c (t ++ s)).
  rewrite startsWith_colon_cons. cbn [every] in Ht.
  apply andb_true_iff in Ht. destruct Ht as [Hc _].
  now destruct (segment_char_parts _ Hc) as (_ & _ & Hcolon).
Qed.

(** *** The tokens of a template *)

Lemma path_tokens_other (c : ascii) (t : string) :
Ascii.eqb c "/" = false ->
path_tokens false (String c t) = PChar c :: path_tokens false t.
Proof.
intros Hc. cbn [path_tokens andb].
destruct t as [|c1 [|c2 t']]; try reflexivity. now rewrite Hc.
Qed.

Lemma path_tokens_slash (t : string) :
startsWith ":" t = false ->
path_tokens false (String "/" t) = PChar "/" :: path_tokens false t.
Proof.
intros Ht. cbn [path_tokens andb].
destruct t as [|c1 [|c2 t']]; try reflexivity.
rewrite startsWith_colon_cons in Ht. now rewrite Ht, andb_false_r.
Qed.

Lemma path_tokens_skip_boundary (s : string) :
at_boundary s -> path_tokens true s = path_tokens false s.
Proof.
intros [->|(t & ->)]; reflexivity.
Qed.

Lemma path_tokens_skip_word (n s : string) :
every is_word n = true -> at_boundary s ->
path_tokens true (n ++ s) = path_tokens false s.
Proof.
intros Hn Hs. induction n as [|c n IH].
- now apply path_tokens_skip_boundary.
- cbn [every] in Hn. apply andb_true_iff in Hn. destruct Hn as [Hc Hn].
  change (String c n ++ s) with (String c (n ++ s)).
  cbn [path_tokens andb]. rewrite Hc. exact (IH Hn).
Qed.

Lemma path_tokens_segment (t s : string) :
every segment_char t = true ->
path_tokens false (t ++ s) = (literal_tokens t ++ path_tokens false s)%list.
Proof.
induction t as [|c t IH]; [reflexivity|].
cbn [every]. intros Ht. apply andb_true_iff in Ht. destruct Ht as [Hc Ht].
destruct (segment_char_parts _ Hc) as (_ & Hslash & _).
change (String c t ++ s) with (String c (t ++ s)).
rewrite (@path_tokens_other c (t ++ s) Hslash), (IH Ht). reflexivity.
Qed.

Lemma path_tokens_template (segs : list segment) :
forallb wf_segment segs = true ->
path_tokens false (template_path segs) = template_tokens segs.
Proof.
induction segs as [|[t|n] rest IH]; [reflexivity| |];
  cbn [forallb wf_segment]; intros Hw; apply andb_true_iff in Hw;
  destruct Hw as [Hsg Hrest]; cbn [template_path template_tokens].
- change ("/" ++ t ++ template_path rest)
    with (String "/" (t ++ template_path rest)).
  rewrite path_tokens_slash
    by (apply literal_then_boundary;
        [exact Hsg|apply template_path_boundary]).
  now rewrite (@path_tokens_segment t (template_path rest) Hsg), (IH Hrest).
- apply andb_true_iff in Hsg. destruct Hsg as [Hne Hn].
  destruct n as [|c2 n]; [discriminate|].
  cbn [every] in Hn. apply andb_true_iff in Hn. destruct Hn as [Hc2 Hn].
  change ("/:" ++ String c2 n ++ template_path rest)
    with (String "/" (String ":" (String c2 (n ++ template_path rest)))).
  cbn [path_tokens andb]. rewrite Ascii.eqb_refl, Hc2. cbn [andb].
  rewrite (@path_tokens_skip_word n (template_path rest) Hn
             (template_path_boundary rest)).
  now rewrite (IH Hrest).
Qed.

Lemma tokens_terms_segment (t : string) (l : list ptoken) (next : nat) :
every segment_char t = true ->
tokens_terms next (literal_tokens t ++ l)%list
= (literal_terms t ++ tokens_terms next l)%list.
Proof.
induction t as [|c t IH]; [reflexivity|].
cbn [every]. intros Ht. apply andb_true_iff in Ht. destruct Ht as [Hc Ht].
destruct (segment_char_parts _ Hc) as (Hl & _ & _).
destruct (literal_char_parts _ Hl) as (_ & Hstar & Hdot & _).
cbn [literal_tokens literal_terms app tokens_terms].
unfold char_term. now rewrite Hstar, Hdot, (IH Ht).
Qed.

(** *** The route path is simple, and its names are the parameters *)

Lemma colon_ok_segment (u s : string) :
includes "/" u = false -> colon_ok (u ++ s) = colon_ok s.
Proof.
induction u as [|c u IH]; [reflexivity|].
cbn [includes]. intros Hu. apply orb_false_elim in Hu.
destruct Hu as [Hc Hu].
change (String c u ++ s) with (String c (u ++ s)).
cbn [colon_ok]. now rewrite Hc, (IH Hu).
Qed.

Lemma colon_ok_param (c2 : ascii) (t : string) :
colon_ok (String "/" (String ":" (String c2 t)))
= is_word c2 && colon_ok (String c2 t).
Proof.
cbn [colon_ok]. rewrite !startsWith_colon_cons.
change (Ascii.eqb ":" ":") with true.
change (Ascii.eqb "/" "/") with true.
change (Ascii.eqb ":" "/") with false.
cbn [andb]. reflexivity.
Qed.

Lemma template_simple_chars (segs : list segment) :
forallb wf_segment segs = true ->
every simple_char (template_path segs) = true /\
colon_ok (template_path segs) = true.
Proof.
induction segs as [|[t|n] rest IH]; [split; reflexivity| |];
  cbn [forallb wf_segment]; intros Hw; apply andb_true_iff in Hw;
  destruct Hw as [Hsg Hrest]; destruct (IH Hrest) as [Hsimple Hok];
  cbn [template_path].
- change ("/" ++ t ++ template_path rest)
    with (String "/" (t ++ template_path rest)).
  cbn [every colon_ok].
  rewrite (@literal_then_boundary t (template_path rest) Hsg
             (template_path_boundary rest)).
  rewrite every_app, Hsimple.
  rewrite colon_ok_segment, Hok.
  + rewrite (@every_impl segment_char simple_char t); [split; reflexivity| |exact Hsg].
    intros c Hc. destruct (segment_char_parts _ Hc) as (Hl & _ & _).
    now destruct (literal_char_parts _ Hl).
  + apply (@every_no_sep segment_char); [|exact Hsg].
    intros c Hc. now destruct (segment_char_parts _ Hc) as (_ & Hs & _).
- apply andb_true_iff in Hsg. destruct Hsg as [Hne Hn].
  destruct n as [|c2 n]; [discriminate|].
  change ("/:" ++ String c2 n ++ template_path rest)
    with (String "/" (String ":" (String c2 n ++ template_path rest))).
  assert (Hslash : includes "/" (String c2 n) = false).
  { apply (@every_no_sep is_word); [|exact Hn].
    intros c Hc. now destruct (word_parts _ Hc) as (_ & Hs & _). }
  assert (Hword : every simple_char (String c2 n) = true).
  { apply (@every_impl is_word simple_char); [|exact Hn].
    intros c Hc. now destruct (word_parts _ Hc). }
  split.
  + cbn [every]. rewrite every_app, Hword, Hsimple. reflexivity.
  + cbn [every] in Hn. apply andb_true_iff in Hn. destruct Hn as [Hc2 _].
    change (String c2 n ++ template_path rest)
      with (String c2 (n ++ template_path rest)).
    rewrite colon_ok_param, Hc2.
    change (String c2 (n ++ template_path rest))
      with (String c2 n ++ template_path rest).
    now rewrite (@colon_ok_segment (String c2 n) (template_path rest) Hslash), Hok.
Qed.

Lemma template_simple (segs : list segment) :
segs <> [] -> forallb wf_segment segs = true ->
simple_path (template_path segs) = true.
Proof.
intros Hne Hw. destruct (@template_simple_chars segs Hw) as [Hs Hok].
unfold simple_path. rewrite Hs, Hok.
destruct segs as [|[t|n] rest]; [contradiction| |]; reflexivity.
Qed.

Lemma split_segment (u s : string) :
includes "/" u = false ->
split "/" (u ++ String "/" s) = u :: split "/" s.
Proof.
induction u as [|c u IH]; [reflexivity|].
cbn [includes]. intros Hu. apply orb_false_elim in Hu.
destruct Hu as [Hc Hu].
change (String c u ++ String "/" s) with (String c (u ++ String "/" s)).
now rewrite split_cons, Hc, (IH Hu).
Qed.

Lemma split_whole (u : string) :
includes "/" u = false -> split "/" u = [u].
Proof.
induction u as [|c u IH]; [reflexivity|].
cbn [includes]. intros Hu. apply orb_false_elim in Hu.
destruct Hu as [Hc Hu]. now rewrite split_cons, Hc, (IH Hu).
Qed.

Lemma segment_source_no_slash (sg : segment) :
wf_segment sg = true -> includes "/" (segment_source sg) = false.
Proof.
destruct sg as [t|n]; cbn [wf_segment segment_source]; intros Hw.
- apply (@every_no_sep segment_char); [|exact Hw].
  intros c Hc. now destruct (segment_char_parts _ Hc) as (_ & Hs & _).
- apply andb_true_iff in Hw. destruct Hw as [_ Hn].
  change (":" ++ n) with (String ":" n). cbn [includes].
  apply (@every_no_sep is_word); [|exact Hn].
  intros c Hc. now destruct (word_parts _ Hc) as (_ & Hs & _).
Qed.

Lemma split_template (segs : list segment) :
forallb wf_segment segs = true ->
forall u, includes "/" u = false ->
  split "/" (u ++ template_path segs) = u :: map segment_source segs.
Proof.
induction segs as [|sg rest IH]; intros Hw u Hu.
- cbn [template_path map]. rewrite append_nil_r. now apply split_whole.
- cbn [forallb] in Hw. apply andb_true_iff in Hw. destruct Hw as [Hsg Hrest].
  assert (Hpath : template_path (sg :: rest)
                  = String "/" (segment_source sg ++ template_path rest)).
  { destruct sg as [t|n]; [reflexivity|].
    cbn [template_path segment_source].
    change ("/:" ++ n ++ template_path rest)
      with (String "/" (String ":" (n ++ template_path rest))).
    reflexivity. }
  rewrite Hpath, (@split_segment u _ Hu).
  now rewrite (IH Hrest _ (@segment_source_no_slash sg Hsg)).
Qed.

Lemma names_of_sources (segs : list segment) :
forallb wf_segment segs = true ->
map slice_1 (filter (startsWith ":") (map segment_source segs))
= template_names segs.
Proof.
induction segs as [|[t|n] rest IH]; [reflexivity| |];
  cbn [forallb wf_segment]; intros Hw; apply andb_true_iff in Hw;
  destruct Hw as [Hsg Hrest]; cbn [map filter segment_source template_names].
- pose proof (@literal_then_boundary t EmptyString Hsg (or_introl eq_refl))
    as Hstart.
  rewrite append_nil_r in Hstart. rewrite Hstart. exact (IH Hrest).
- change (":" ++ n) with (String ":" n).
  rewrite startsWith_colon_cons, Ascii.eqb_refl. cbn [map slice_1].
  now rewrite (IH Hrest).
Qed.

Lemma extractParams_template (segs : list segment) :
forallb wf_segment segs = true ->
extractParams (template_path segs) = template_names segs.
Proof.
intros Hw. rewrite extractParams_filter.
change (template_path segs) with (EmptyString ++ template_path segs).
rewrite (@split_template segs Hw EmptyString eq_refl).
cbn [filter]. change (startsWith ":" EmptyString) with false. cbv iota.
now apply names_of_sources.
Qed.

(** *** The greedy loop of [[^/]+] on a value *)

Lemma repeat_loop_value (accepts : ascii -> bool) m (k : cont) :
char_matcher accepts m ->
forall (v rest : string),
  every accepts v = true ->
  (rest = EmptyString \/ exists d t, rest = String d t /\ accepts d = false) ->
  forall fuel min pos caps res,
    String.length v <= fuel -> min <= String.length v ->
    k (pos + String.length v) rest caps = Some res ->
    repeat_loop m [] true k fuel min None pos (v ++ rest) caps = Some res.
Proof.
intros Hm v rest Hv Hrest. induction v as [|c v IH];
  intros fuel min pos caps res Hfuel Hmin Hk.
- cbn [String.length] in *. rewrite Nat.add_0_r in Hk.
  assert (min = 0) by lia. subst min.
  change (EmptyString ++ rest) with rest.
  destruct fuel as [|fuel]; [exact Hk|].
  cbn [repeat_loop Nat.eqb negb clear fold_left]. rewrite Hm.
  destruct Hrest as [->|(d & t & -> & Hd)].
  + cbn [orelse]. exact Hk.
  + rewrite Hd. cbn [orelse]. exact Hk.
- cbn [every] in Hv. apply andb_true_iff in Hv. destruct Hv as [Hc Hv].
  cbn [String.length] in *.
  destruct fuel as [|fuel]; [lia|].
  change (String c v ++ rest) with (String c (v ++ rest)).
  assert (Hstep : repeat_loop m [] true k fuel (pred min) None (S pos)
                    (v ++ rest) caps = Some res).
  { apply (IH Hv); [lia|lia|]. now rewrite Nat.add_succ_comm. }
  cbn [repeat_loop clear fold_left option_map]. rewrite !Hm, Hc.
  replace (Nat.eqb (S pos) pos) with false
    by (symmetry; apply Nat.eqb_neq; lia).
  rewrite andb_false_r, Hstep.
  destruct (negb (Nat.eqb min 0)); reflexivity.
Qed.

Lemma strip_prefix_app (p s : string) : strip_prefix p (p ++ s) = Some s.
Proof.
induction p as [|c p IH]; [reflexivity|].
change (String c p ++ s) with (String c (p ++ s)).
cbn [strip_prefix]. now rewrite Ascii.eqb_refl.
Qed.

Lemma boundary_stops (s : string) :
at_boundary s ->
s = EmptyString \/ exists d t, s = String d t /\ not_slash d = false.
Proof.
intros [->|(t & ->)]; [now left|]. right. exists "/"%char, t.
split; reflexivity.
Qed.

(** The terms of a template, run on a request that fills it, take the
  whole request and leave the values in the groups. *)
Lemma matcher_template (tail : list regex) (k : cont) :
forall segs vals next pos caps res,
  forallb wf_segment segs = true ->
  Forall segment_text vals ->
  List.length vals = List.length (template_names segs) ->
  matcher (mk_seq tail) (pos + String.length (instantiate segs vals))
    EmptyString (fill next vals caps) k = Some res ->
  matcher (mk_seq (tokens_terms next (template_tokens segs) ++ tail)) pos
    (instantiate segs vals) caps k = Some res.
Proof.
induction segs as [|[t|n] rest IH];
  intros vals next pos caps res Hw Hvals Hlen Hk.
- cbn [template_names List.length] in Hlen.
  destruct vals; [|discriminate].
  cbn [instantiate String.length fill template_tokens tokens_terms app] in *.
  now rewrite Nat.add_0_r in Hk.
- cbn [forallb wf_segment] in Hw. apply andb_true_iff in Hw.
  destruct Hw as [Hsg Hrest].
  cbn [template_tokens tokens_terms instantiate template_names] in *.
  change ("/" ++ t ++ instantiate rest vals)
    with (String "/" (t ++ instantiate rest vals)) in *.
  change (char_term "/") with (RChar "/").
  rewrite (@tokens_terms_segment t (template_tokens rest) next Hsg).
  cbn [app]. rewrite mk_seq_cons, matcher_seq, matcher_char, Ascii.eqb_refl.
  rewrite <- app_assoc, matcher_literal, strip_prefix_app.
  apply (IH vals next _ caps res Hrest Hvals Hlen).
  cbn [String.length] in Hk. rewrite length_append in Hk.
  replace (S pos + String.length t + String.length (instantiate rest vals))
    with (pos + S (String.length t + String.length (instantiate rest vals)))
    by lia.
  exact Hk.
- cbn [forallb] in Hw. apply andb_true_iff in Hw. destruct Hw as [_ Hrest].
  cbn [template_names List.length] in Hlen.
  destruct vals as [|v vals]; [discriminate|].
  injection Hlen as Hlen. inversion Hvals as [|? ? [Hne Hslash] Hvals']; subst.
  cbn [template_tokens tokens_terms instantiate hd tl fill app] in *.
  change ("/" ++ v ++ instantiate rest vals)
    with (String "/" (v ++ instantiate rest vals)) in *.
  rewrite mk_seq_cons, matcher_seq, matcher_char, Ascii.eqb_refl.
  rewrite mk_seq_cons, matcher_seq. unfold param_group.
  rewrite matcher_group, matcher_seq, matcher_repeat. cbn [groups].
  apply (@repeat_loop_value not_slash _ _
           (char_matcher_class true [("/", "/")%char]) v
           (instantiate rest vals) (@no_slash_every v Hslash)
           (@boundary_stops _ (instantiate_boundary rest vals))).
  + rewrite length_append. lia.
  + destruct v; [contradiction|]. cbn [String.length]. lia.
  + rewrite matcher_empty.
    replace (S pos + String.length v - S pos) with (String.length v) by lia.
    rewrite substring_prefix.
    apply (IH vals (S next) _ _ res Hrest Hvals' Hlen).
    cbn [String.length] in Hk. rewrite length_append in Hk.
    replace (S pos + String.length v
             + String.length (instantiate rest vals))
      with (pos + S (String.length v
                     + String.length (instantiate rest vals))) by lia.
    exact Hk.
Qed.

Lemma set_nth_app (A : Type) (pre l : list A) (x y : A) :
set_nth (List.length pre) y (pre ++ x :: l)%list = (pre ++ y :: l)%list.
Proof.
induction pre as [|a pre IH]; [reflexivity|].
cbn [List.length app set_nth]. now rewrite IH.
Qed.

Lemma fill_fresh (vals : list string) :
forall pre : captures,
  fill (List.length pre) vals (pre ++ repeat None (List.length vals))%list
  = (pre ++ map Some vals)%list.
Proof.
induction vals as [|v vals IH]; intros pre; [reflexivity|].
cbn [List.length repeat fill map]. rewrite set_nth_app.
change (pre ++ Some v :: repeat None (List.length vals))%list
  with (pre ++ [Some v] ++ repeat None (List.length vals))%list.
rewrite app_assoc.
replace (S (List.length pre)) with (List.length (pre ++ [Some v])%list)
  by (rewrite length_app; cbn [List.length]; lia).
rewrite IH, <- app_assoc. reflexivity.
Qed.

(** The pattern of a template accepts the request that fills it. *)
Lemma exec_template (segs : list segment) (vals : list string) :
forallb wf_segment segs = true ->
Forall segment_text vals ->
List.length vals = List.length (template_names segs) ->
exec {| ast := mk_seq (RBol :: tokens_terms 1 (template_tokens segs)
                         ++ [REol]);
        ngroups := List.length (template_names segs) |}
  (instantiate segs vals)
= Some (Some (instantiate segs vals) :: map Some vals).
Proof.
intros Hw Hvals Hlen. rewrite mk_seq_cons, exec_bol.
rewrite (@matcher_template [REol] (fun pos' _ caps' => Some (pos', caps'))
           segs vals 1 0 _
           (String.length (instantiate segs vals),
            fill 1 vals (repeat None (S (List.length (template_names segs)))))
           Hw Hvals Hlen); [|reflexivity].
rewrite Nat.sub_0_r, substring_all, <- Hlen.
change (repeat (@None string) (S (List.length vals)))
  with ([@None string] ++ repeat None (List.length vals))%list.
change 1 with (List.length [@None string]).
rewrite fill_fresh. reflexivity.
Qed.

Lemma pathToRegex_template (segs : list segment) :
segs <> [] -> forallb wf_segment segs = true ->
pathToRegex (template_path segs)
= Returned {| ast := mk_seq (RBol :: tokens_terms 1 (template_tokens segs)
                               ++ [REol]);
              ngroups := List.length (template_names segs) |}.
Proof.
intros Hne Hw.
rewrite (@pathToRegex_simple _ (@template_simple segs Hne Hw)).
now rewrite (@path_tokens_template segs Hw), (@extractParams_template segs Hw).
Qed.

(** X16: the round trip between a route path and a request.  For a route
  path made of literal segments and of [:name] segments, [extractParams]
  gives the names of the parameters, from left to right, and the pattern
  of [pathToRegex] accepts every request path that puts a value (a text
  that is not empty and holds no slash) in each parameter, with exactly
  these values as captures, in the same order. *)
Theorem template_round_trip (segs : list segment) (vals : list string) :
segs <> [] ->
forallb wf_segment segs = true ->
Forall segment_text vals ->
List.length vals = List.length (template_names segs) ->
extractParams (template_path segs) = template_names segs /\
exists rx,
  pathToRegex (template_path segs) = Returned rx /\
  exec rx (instantiate segs vals)
  = Some (Some (instantiate segs vals) :: map Some vals).
Proof.
intros Hne Hw Hvals Hlen. split; [now apply extractParams_template|].
eexists. split; [now apply pathToRegex_template|].
now apply exec_template.
Qed.

End TemplateFacts.


(** ** From a registration to the parameters of a request *)

Section TemplateDispatch.

Variable H : Type.
Implicit Types (r : Router H) (h : H).

Lemma append_cancel (a b c : string) : a ++ b = a ++ c -> b = c.
Proof.
induction a as [|x a IH]; [trivial|].
change (String x a ++ b) with (String x (a ++ b)).
change (String x a ++ c) with (String x (a ++ c)).
intros [= Heq]. exact (IH Heq).
Qed.

Lemma route_key_eqb (method p q : string) :
String.eqb (route_key method p) (route_key method q) = String.eqb p q.
Proof.
destruct (String.eqb_spec p q) as [->|Hne]; [apply String.eqb_refl|].
apply String.eqb_neq. unfold route_key. intros Heq.
apply append_cancel in Heq. apply Hne.
now injection Heq.
Qed.

(** The loop over the names, on captures that are all defined: the names
  are bound to the values, in order, provided no name comes twice, none
  is [__proto__] and none is an array index. *)
Lemma bind_params_template (names : list string) :
forall (vals : list string) index (pre : RegExp.captures) (o : obj),
  List.length vals = List.length names ->
  NoDup names -> ~ In "__proto__" names ->
  Forall (fun n => array_index n = None) names ->
  (forall n, In n names -> JsMap.get n o = None) ->
  List.length pre = S index ->
  bind_params names index (pre ++ map Some vals)%list o
  = (o ++ combine names (map VString vals))%list.
Proof.
induction names as [|n names IH];
  intros vals index pre o Hlen Hnd Hproto Hidx Hfresh Hpre.
- cbn [bind_params combine]. now rewrite app_nil_r.
- destruct vals as [|v vals]; [discriminate|]. injection Hlen as Hlen.
  inversion Hnd as [|? ? Hnotin Hnd']; subst.
  inversion Hidx as [|? ? Hnidx Hidx']; subst.
  cbn [bind_params map combine].
  assert (Hcap : capture (pre ++ Some v :: map Some vals)%list (S index)
                 = VString v).
  { unfold capture. rewrite nth_error_app2 by lia.
    now replace (S index - List.length pre) with 0 by lia. }
  rewrite Hcap. unfold obj_set.
  assert (Hn : String.eqb n "__proto__" = false).
  { apply String.eqb_neq. intros ->. apply Hproto. now left. }
  rewrite Hn, Hnidx.
  rewrite (proj2 (has_false_get n o) (Hfresh n (or_introl eq_refl))).
  rewrite (@set_fresh _ n (VString v) o (Hfresh n (or_introl eq_refl))).
  change (pre ++ Some v :: map Some vals)%list
    with (pre ++ [Some v] ++ map Some vals)%list.
  rewrite app_assoc.
  assert (Hproto' : ~ In "__proto__" names).
  { intros Hin. apply Hproto. now right. }
  rewrite (IH vals (S index) (pre ++ [Some v])%list
             (o ++ [(n, VString v)])%list Hlen Hnd' Hproto' Hidx').
  + now rewrite <- app_assoc.
  + intros n' Hin. rewrite get_app, (Hfresh n' (or_intror Hin)).
    cbn [JsMap.get].
    destruct (String.eqb_spec n n') as [->|_]; [contradiction|reflexivity].
  + rewrite length_app. cbn [List.length]. lia.
Qed.

(** X17: from [add] to the parameters of a request.  Once a route path
  made of literal and [:name] segments is registered, a request of the
  same method that puts a value in each parameter, and that no earlier
  route takes, is resolved to the new handler.  Its parameters are the
  names bound to the values, in the order of the path, when no name
  comes twice, none is [__proto__] and none is an array index (a name
  such as [1], which an object keeps before its other names); but when
  the request path is the route path itself, the exact key takes it and
  the parameters are empty. *)
Theorem template_request_dispatched r r' method h
  (segs : list segment) (vals : list string) :
segs <> [] ->
forallb wf_segment segs = true ->
Forall segment_text vals ->
List.length vals = List.length (template_names segs) ->
NoDup (template_names segs) ->
~ In "__proto__" (template_names segs) ->
Forall (fun n => array_index n = None) (template_names segs) ->
normalizePath (template_path segs) = template_path segs ->
includes ":" (toUpperCase method) = false ->
add method (template_path segs) h r = (r', Returned tt) ->
match_ r method (instantiate segs vals) = None ->
match_ r' method (instantiate segs vals)
= Some (h, if String.eqb (template_path segs) (instantiate segs vals)
           then []
           else combine (template_names segs) (map VString vals)).
Proof.
intros Hne Hw Hvals Hlen Hnd Hproto Hidx Hnorm Hm Hadd Hnone.
destruct (add_success _ _ _ _ Hadd) as (rx & _ & Hrx & ->).
rewrite Hnorm in *.
rewrite (@pathToRegex_template segs Hne Hw) in Hrx.
injection Hrx as <-.
unfold match_ in *. cbn [routes]. rewrite get_app, scan_app.
fold (route_key method (instantiate segs vals)) in *.
destruct (JsMap.get (route_key method (instantiate segs vals)) (routes r));
  [discriminate|].
rewrite Hnone. cbn [JsMap.get]. rewrite route_key_eqb.
destruct (String.eqb (template_path segs) (instantiate segs vals));
  [reflexivity|].
cbn [scan regex handler params].
rewrite (@key_method_route_key method (template_path segs) Hm).
rewrite String.eqb_refl. cbn [negb].
pose proof (@exec_template segs vals Hw Hvals Hlen) as Hexec.
rewrite mk_seq_cons in Hexec. rewrite Hexec.
rewrite (@extractParams_template segs Hw).
change (Some (instantiate segs vals) :: map Some vals)
  with ([Some (instantiate segs vals)] ++ map Some vals)%list.
rewrite (@bind_params_template (template_names segs) vals 0
           [Some (instantiate segs vals)] [] Hlen Hnd Hproto Hidx);
  [reflexivity| |reflexivity].
intros n _. reflexivity.
Qed.

End TemplateDispatch.


Lemma template_round_trip_witness :
  extractParams "/users/:id/posts/:post" = ["id"; "post"] /\
  exists rx,
    pathToRegex "/users/:id/posts/:post" = Returned rx /\
    RegExp.exec rx "/users/42/posts/7"
    = Some [Some "/users/42/posts/7"; Some "42"; Some "7"].
Proof.
  assert (Hne : nested_template <> []) by discriminate.
  assert (Hw : forallb wf_segment nested_template = true)
    by (vm_compute; reflexivity).
  assert (Hvals : Forall segment_text ["42"; "7"]).
  { repeat constructor; discriminate. }
  exact (@template_round_trip nested_template ["42"; "7"] Hne Hw Hvals
           eq_refl).
Defined.

Lemma template_request_dispatched_witness :
  match_ nested_router "get" "/users/42/posts/7"
  = Some (7, [("id", VString "42"); ("post", VString "7")]).
Proof.
  assert (Hne : nested_template <> []) by discriminate.
  assert (Hw : forallb wf_segment nested_template = true)
    by (vm_compute; reflexivity).
  assert (Hvals : Forall segment_text ["42"; "7"]).
  { repeat constructor; discriminate. }
  assert (Hnd : NoDup (template_names nested_template)).
  { constructor; [intros [Heq|[]]; discriminate Heq|].
    constructor; [intros []|constructor]. }
  assert (Hproto : ~ In "__proto__" (template_names nested_template)).
  { intros [Heq|[Heq|[]]]; discriminate Heq. }
  assert (Hidx : Forall (fun n => array_index n = None)
                   (template_names nested_template)).
  { repeat constructor. }
  assert (Hnorm : normalizePath (template_path nested_template)
                  = template_path nested_template)
    by (vm_compute; reflexivity).
  assert (Hm : includes ":" (toUpperCase "get") = false)
    by (vm_compute; reflexivity).
  assert (Hadd : add "get" (template_path nested_template) 7 empty
                 = (nested_router, Returned tt)) by (vm_compute; reflexivity).
  assert (Hnone : match_ (@empty nat) "get"
                    (instantiate nested_template ["42"; "7"]) = None)
    by (vm_compute; reflexivity).
  exact (@template_request_dispatched nat empty nested_router "get" 7
           nested_template ["42"; "7"] Hne Hw Hvals eq_refl Hnd Hproto Hidx Hnorm
           Hm Hadd Hnone).
Defined.


(** ** Middlewares with a path *)

Section UsePathFacts.

Import RegExp.

Variable H : Type.
Variable World : Type.
Variable call_middleware : H -> World -> World * outcome jsval.

Local Abbreviation run_mws := (run_middlewares call_middleware).

Lemma test_literal (p : string) :
every literal_char p = true ->
exists rx,
  pathToRegex p = Returned rx /\
  forall s, test rx s = String.eqb s p.
Proof.
intros Hp. destruct (@tokens_terms_literal p 1 Hp) as (Hterms & Hcount & Hs).
eexists. split.
- unfold pathToRegex. rewrite (parse_simple_source _ Hs). reflexivity.
- intros s. unfold test.
  rewrite (@path_tokens_literal p Hp), Hterms, Hcount.
  rewrite mk_seq_cons, exec_bol, matcher_literal.
  destruct (strip_prefix p s) as [rest|] eqn:Hstrip.
  + cbn [mk_seq fold_right matcher]. destruct rest as [|c rest].
    * apply strip_prefix_all in Hstrip. subst s.
      now rewrite String.eqb_refl.
    * destruct (String.eqb_spec s p) as [->|_]; [|reflexivity].
      rewrite (proj2 (strip_prefix_all p p) eq_refl) in Hstrip.
      discriminate.
  + destruct (String.eqb_spec s p) as [->|_]; [|reflexivity].
    rewrite (proj2 (strip_prefix_all p p) eq_refl) in Hstrip.
    discriminate.
Qed.

Lemma run_middlewares_skipped (mws : list (Middleware H)) (pathname : string) :
Forall (fun mw => exists rx,
          pathToRegex (normalizePath (path mw)) = Returned rx /\
          test rx pathname = false) mws ->
forall index w, run_mws index mws pathname w = (w, [], Continue).
Proof.
induction 1 as [|mw mws (rx & Hrx & Ht) _ IH]; intros index w;
  cbn [run_middlewares]; [reflexivity|].
rewrite Hrx, Ht. apply IH.
Qed.

(** X18: a middleware registered with a path runs on the requests for
  exactly that path, not on the paths below it.  For a path whose normal
  form holds literal code units only, the handlers given to
  [use(path, ...handlers)] are all skipped when the request path is not
  that normal form, and the first of them is called when it is (once the
  earlier middlewares have let the request through). *)
Theorem use_path_runs_on_exact_path (r : Router H) (p : string)
  (hs : list H) (pathname : string) (w w1 : World)
  (tr1 : list (event H)) :
every literal_char (normalizePath p) = true ->
run_mws 0 (middlewares r) pathname w = (w1, tr1, Continue) ->
(pathname <> normalizePath p ->
 run_mws 0 (middlewares (use (inr p) hs r)) pathname w
 = (w1, tr1, Continue)) /\
(pathname = normalizePath p ->
 forall h hs', hs = h :: hs' ->
   exists w2 tr2 f,
     run_mws 0 (middlewares (use (inr p) hs r)) pathname w
     = (w2,
        (tr1 ++ EvMiddleware (List.length (middlewares r)) h :: tr2)%list,
        f)).
Proof.
intros Hp Hb. destruct (@test_literal _ Hp) as (rx & Hrx & Htest).
cbn [use middlewares]. rewrite run_middlewares_app, Hb. split.
- intros Hne. rewrite run_middlewares_skipped; [now rewrite app_nil_r|].
  apply Forall_forall. intros mw Hin. apply in_map_iff in Hin.
  destruct Hin as (h & <- & _). cbn [path]. exists rx.
  split; [exact Hrx|]. rewrite Htest. now apply String.eqb_neq.
- intros -> h hs' ->. cbn [map run_middlewares path mw_handler].
  rewrite Hrx, Htest, String.eqb_refl, Nat.add_0_l.
  destruct (call_middleware h w1) as [w2 [v| |]].
  + destruct (is_false v); [now exists w2, [], Return|].
    match goal with
    | |- context [run_middlewares ?c ?i ?l ?q ?x] =>
        destruct (run_middlewares c i l q x) as [[w4 tr4] f4]
    end.
    now exists w4, tr4, f4.
  + now exists w2, [], (Abort e).
  + now exists w2, [], Stuck.
Qed.

End UsePathFacts.


Lemma use_path_runs_on_exact_path_witness :
  run_middlewares demo_middleware 0
    (middlewares (use (inr "/api/") [5; 6] (@empty nat))) "/api/v1" []
  = ([], [], Continue) /\
  exists w2 tr2 f,
    run_middlewares demo_middleware 0
      (middlewares (use (inr "/api/") [5; 6] (@empty nat))) "/api" []
    = (w2, ([] ++ EvMiddleware (List.length (middlewares (@empty nat))) 5
                  :: tr2)%list, f).
Proof.
  assert (Hp : every literal_char (normalizePath "/api/") = true)
    by (vm_compute; reflexivity).
  assert (Hn : normalizePath "/api/" = "/api") by (vm_compute; reflexivity).
  assert (Hb : forall pathname,
             run_middlewares demo_middleware 0 (middlewares (@empty nat))
               pathname [] = ([], [], Continue)) by reflexivity.
  split.
  - apply (@use_path_runs_on_exact_path nat (list nat) demo_middleware
             empty "/api/" [5; 6] "/api/v1" [] [] [] Hp (Hb "/api/v1")).
    rewrite Hn. discriminate.
  - apply (proj2 (@use_path_runs_on_exact_path nat (list nat) demo_middleware
                    empty "/api/" [5; 6] "/api" [] [] [] Hp (Hb "/api"))
             (eq_sym Hn) 5 [6] eq_refl).
Defined.
